(** * DialogRasaMigrator: a shallow embedding of the Dialogflow to Rasa migrator

    The development follows [DialogRasaMigrator.py].  Python text is a
    sequence of Unicode code points, so a [str] is a list of code points;
    the string methods the script relies on ([startswith], [endswith],
    [find], slicing, [replace], [split] with a bound, [join], [in]) are
    embedded first, then the script's functions in source order, with the
    module globals and the three target files threaded as an explicit
    [state]. *)

From Stdlib Require Import String Ascii.
From Stdlib Require DecimalString.
From Stdlib Require Import NArith ZArith Lia Bool List.
Import ListNotations.

Set Implicit Arguments.

(** ** Text *)

Definition char := N.
Definition str := list char.

(** ASCII literal to text. *)
Definition lit (s : string) : str :=
  map N_of_ascii (list_ascii_of_string s).

Definition LF : char := 10%N.       (* line feed *)
Definition CR : char := 13%N.       (* carriage return *)
Definition DQUOTE : char := 34%N.   (* plain double quote *)
Definition LDQUOTE : char := 8220%N. (* left double quotation mark *)
Definition RDQUOTE : char := 8221%N. (* right double quotation mark *)

Fixpoint str_eqb (a b : str) : bool :=
  match a, b with
  | [], [] => true
  | x :: a', y :: b' => N.eqb x y && str_eqb a' b'
  | _, _ => false
  end.

(** [s.startswith(p)] *)
Fixpoint startswith (s p : str) {struct p} : bool :=
  match p with
  | [] => true
  | a :: p' =>
      match s with
      | [] => false
      | b :: s' => N.eqb b a && startswith s' p'
      end
  end.

(** [s.endswith(p)] *)
Definition endswith (s p : str) : bool :=
  startswith (rev s) (rev p).

(** [s.find(sub)]: the lowest index at which [sub] occurs, [-1] when it
    does not occur. *)
Fixpoint find_nat (s sub : str) : option nat :=
  if startswith s sub then Some 0
  else match s with
       | [] => None
       | _ :: s' => option_map S (find_nat s' sub)
       end.

Definition find (s sub : str) : Z :=
  match find_nat s sub with
  | Some i => Z.of_nat i
  | None => (-1)%Z
  end.

(** [sub in s] *)
Definition contains (s sub : str) : bool :=
  match find_nat s sub with Some _ => true | None => false end.

(** [s[:i]] with Python's treatment of a negative bound (counted from the
    end, clamped at the start). *)
Definition slice_to (s : str) (i : Z) : str :=
  if (i <? 0)%Z then firstn (length s - Z.to_nat (- i)) s
  else firstn (Z.to_nat i) s.

(** [s.replace(old, new, count)]; [count = None] is Python's default
    (every occurrence).  Occurrences are taken left to right and do not
    overlap; [skip] counts the characters of a matched occurrence still
    to be dropped. *)
Definition count_left (count : option nat) : bool :=
  match count with Some 0 => false | _ => true end.

Definition count_dec (count : option nat) : option nat :=
  match count with Some n => Some (pred n) | None => None end.

Fixpoint replace_scan (old new : str) (count : option nat) (skip : nat)
  (s : str) : str :=
  match s with
  | [] => []
  | c :: s' =>
      match skip with
      | S k => replace_scan old new count k s'
      | 0 =>
          if count_left count && startswith s old
          then new ++ replace_scan old new (count_dec count) (length old - 1) s'
          else c :: replace_scan old new count 0 s'
      end
  end.

(** An empty [old] matches between characters and at both ends. *)
Fixpoint replace_empty (new : str) (count : option nat) (s : str) : str :=
  if count_left count
  then new ++ match s with
              | [] => []
              | c :: s' => c :: replace_empty new (count_dec count) s'
              end
  else s.

Definition replace (s old new : str) (count : option nat) : str :=
  match old with
  | [] => replace_empty new count s
  | _ :: _ => replace_scan old new count 0 s
  end.

(** [s.split(sep, 1)] for a one-character separator: one part when the
    separator is absent, two parts otherwise. *)
Fixpoint split1 (s : str) (sep : char) : list str :=
  match s with
  | [] => [[]]
  | c :: s' =>
      if N.eqb c sep then [[]; s']
      else match split1 s' sep with
           | p :: rest => (c :: p) :: rest
           | [] => [[c]]
           end
  end.

(** [sep.join(parts)] *)
Fixpoint join (sep : str) (parts : list str) : str :=
  match parts with
  | [] => []
  | [p] => p
  | p :: rest => p ++ sep ++ join sep rest
  end.

(** [x in l] for a list of texts. *)
Definition mem (x : str) (l : list str) : bool :=
  existsb (str_eqb x) l.

(** [s.startswith(tuple(l))] *)
Definition startswith_any (s : str) (l : list str) : bool :=
  existsb (startswith s) l.

(** [max(l, key=len)] on a non-empty list [g :: l]: the first element of
    maximal length. *)
Fixpoint max_len (g : str) (l : list str) : str :=
  match l with
  | [] => g
  | h :: l' => if length g <? length h then max_len h l' else max_len g l'
  end.

(** What [read()] returns for a file opened in text mode with the default
    [newline]: a carriage return followed by a line feed, and a carriage
    return alone, are read as one line feed. *)
Fixpoint universal_newlines (s : str) : str :=
  match s with
  | [] => []
  | c :: s' =>
      if N.eqb c CR then
        LF :: match s' with
              | d :: s'' =>
                  if N.eqb d LF then universal_newlines s''
                  else universal_newlines s'
              | [] => []
              end
      else c :: universal_newlines s'
  end.

(** Decimal rendering of a step counter inside an f-string. *)
Definition str_of_nat (n : nat) : str :=
  lit (DecimalString.NilEmpty.string_of_uint (Nat.to_uint n)).

(** ** Global configuration, internal state and the target files *)

Definition DEFAULT_GROUP : str := lit "OTHER".

(** The module globals the functions read and write, with the three
    target documents: the text each file holds ([None]: the file does not
    exist).  A file holds a text: its bytes decode in the encoding it is
    opened with, which is UTF-8 for [replace_in_file] and the encoding of
    the platform, taken to be UTF-8 too, elsewhere; a file that does not
    decode is no state of this development.  The functions read a
    document through [universal_newlines] and write the text they built
    as it is, a line feed being the line separator of the platform. *)
Record state := mkState {
  LANGUAGE_SETTING : str;
  ENTITY_LIST : list str;
  INTENT_LIST : list str;
  RULES_CONTENT : str;
  nlu_yml : option str;
  domain_yml : option str;
  rules_yml : option str
}.

Definition set_INTENT_LIST (st : state) (l : list str) : state :=
  mkState (LANGUAGE_SETTING st) (ENTITY_LIST st) l (RULES_CONTENT st)
          (nlu_yml st) (domain_yml st) (rules_yml st).

Definition set_RULES_CONTENT (st : state) (r : str) : state :=
  mkState (LANGUAGE_SETTING st) (ENTITY_LIST st) (INTENT_LIST st) r
          (nlu_yml st) (domain_yml st) (rules_yml st).

Definition set_nlu_yml (st : state) (f : option str) : state :=
  mkState (LANGUAGE_SETTING st) (ENTITY_LIST st) (INTENT_LIST st)
          (RULES_CONTENT st) f (domain_yml st) (rules_yml st).

Definition set_domain_yml (st : state) (f : option str) : state :=
  mkState (LANGUAGE_SETTING st) (ENTITY_LIST st) (INTENT_LIST st)
          (RULES_CONTENT st) (nlu_yml st) f (rules_yml st).

Definition set_rules_yml (st : state) (f : option str) : state :=
  mkState (LANGUAGE_SETTING st) (ENTITY_LIST st) (INTENT_LIST st)
          (RULES_CONTENT st) (nlu_yml st) (domain_yml st) f.

(** ** The export directory *)

Record button := mkButton { b_text : str; b_value : str }.

(** A rich payload: the [buttons] and [images] keys are optional. *)
Record payload_t := mkPayload {
  buttons : option (list button);
  images : option (list str)          (* the imageUrl of each image *)
}.

(** A message of a response: [speech] holds the strings of a plain-text
    message (empty when the key is absent), [payload] the rich payload
    (both keys absent when the message has none). *)
Record message := mkMessage {
  lang : str;
  mtype : str;
  speech : list str;
  payload : payload_t
}.

(** The parsed content of a file of the intents directory: a usersays
    file is a list of examples, each a list of text parts; an intent file
    carries a list of responses, each a list of messages. *)
Inductive file_data :=
| UserSays (examples : list (list str))
| Intent (responses : list (list message)).

Record dir_entry := mkEntry { fname : str; fdata : file_data }.

(** ** Auxiliary functions *)

(** The compiled pattern [_usersays_.*\.json$]: after an occurrence of
    [_usersays_], characters other than line feed, then [.json] at the end
    of the name or just before a final line feed. *)
Definition no_newline (s : str) : bool :=
  forallb (fun c => negb (N.eqb c LF)) s.

Definition usersays_tail (r : str) : bool :=
  (no_newline r && endswith r (lit ".json"))
  || match rev r with
     | c :: r' => N.eqb c LF && no_newline r' && startswith r' (rev (lit ".json"))
     | [] => false
     end.

Fixpoint is_usersays (filename : str) : bool :=
  (startswith filename (lit "_usersays_") && usersays_tail (skipn 10 filename))
  || match filename with
     | [] => false
     | _ :: rest => is_usersays rest
     end.

(** The dictionary [prefix_count], in insertion order. *)
Fixpoint count_incr (d : list (str * nat)) (k : str) : list (str * nat) :=
  match d with
  | [] => [(k, 1)]
  | (k', c) :: d' =>
      if str_eqb k' k then (k', S c) :: d' else (k', c) :: count_incr d' k
  end.

(** One iteration of the loop of [extract_groups]. *)
Definition tally_step (acc : list (str * nat) * nat) (filename : str)
  : list (str * nat) * nat :=
  let (prefix_count, no_prefix_count) := acc in
  if negb (is_usersays filename) then acc
  else match split1 filename 45%N with
       | prefix :: _ :: _ => (count_incr prefix_count prefix, no_prefix_count)
       | _ => (prefix_count, S no_prefix_count)
       end.

Definition extract_groups (filenames : list str) : list str :=
  let (prefix_count, no_prefix_count) := fold_left tally_step filenames ([], 0) in
  let groups := map fst (filter (fun pc => 2 <=? snd pc) prefix_count) in
  let no_prefix_count :=
    no_prefix_count + length (filter (fun pc => snd pc <? 2) prefix_count) in
  let groups :=
    if 2 <=? no_prefix_count then groups ++ [DEFAULT_GROUP] else groups in
  if (length groups =? 1) && (no_prefix_count =? 0) then [] else groups.

Definition remove_substring (s substr : str) : str :=
  if endswith s substr then slice_to s (- Z.of_nat (length substr)) else s.

Definition add_group_to_intent_name (st : state) (intent_name : str) : str :=
  match filter (startswith intent_name) (INTENT_LIST st) with
  | g :: rest =>
      let intent_group := max_len g rest in
      replace intent_name (intent_group ++ lit "-") (intent_group ++ lit "/")
              (Some 1)
  | [] =>
      if mem DEFAULT_GROUP (INTENT_LIST st)
      then DEFAULT_GROUP ++ lit "/" ++ intent_name
      else intent_name
  end.

Definition format_text (text : str) : str :=
  let text := replace text (lit "'") (lit "'") None in
  let text := replace (replace text [LDQUOTE] [DQUOTE] None)
                      [RDQUOTE] [DQUOTE] None in
  replace text [LF] (lit " ") None.

(** [replace_in_file] on the corpus document: a missing file is reported
    and left alone; an existing one is read, rewritten and written back. *)
Definition replace_in_file (st : state) (old_text new_text : str) : state :=
  match nlu_yml st with
  | None => st
  | Some file =>
      let filedata := universal_newlines file in
      set_nlu_yml st (Some (replace filedata old_text new_text None))
  end.

(** The registration shared by [generate_nlu] and [rename_intent]:
    [if not name.startswith(tuple(INTENT_LIST)): INTENT_LIST.append(name)]. *)
Definition register (l : list str) (name : str) : list str :=
  if negb (startswith_any name l) then l ++ [name] else l.

Definition rename_intent (st : state) (intent_name : str) : state * str :=
  let old_name := intent_name in
  let intent_name := last (split1 intent_name 47%N) [] in
  let st := set_INTENT_LIST st (register (INTENT_LIST st) intent_name) in
  (replace_in_file st old_name intent_name, intent_name).

Definition rename_response (response_name intent_name responses_content : str)
  : str * str :=
  let old_resp := response_name in
  let response_name := lit "utter_" ++ intent_name in
  (response_name, replace responses_content old_resp response_name None).

Definition rule_text (intent_name response_name : str) : str :=
  [LF] ++ lit "- rule: Respond to " ++ intent_name ++ [LF]
  ++ lit "  steps:" ++ [LF]
  ++ lit "  - intent: " ++ intent_name ++ [LF]
  ++ lit "  - action: " ++ response_name ++ [LF].

Definition create_new_rule (rules response_name intent_name : str) : str :=
  rules ++ rule_text intent_name response_name.

(** ** Response normalisation *)

(** The markup one button adds to the domain text. *)
Definition button_markup (url : button) : str :=
  lit "<br><a href=" ++ [DQUOTE] ++ b_value url ++ [DQUOTE] ++ lit ">"
  ++ format_text (b_text url) ++ lit "</a>".

(** The local variables [get_responses] keeps for the intent in hand. *)
Record cursor := mkCursor {
  responses_content : str;
  steps_iter : nat;
  after_text : bool;
  intent_name : str;
  response_name : str
}.

Definition process_buttons (st : state) (bs : list button) (c : cursor)
  : state * cursor :=
  let '(st, rc, steps, intent, resp) :=
    if after_text c then
      (* remove the closing quote and line feed of the last text step *)
      (st, slice_to (responses_content c) (-2), steps_iter c,
       intent_name c, response_name c)
    else
      let '(st, rc, intent, resp) :=
        if steps_iter c =? 0 then
          let (st, intent) := rename_intent st (intent_name c) in
          let (resp, rc) :=
            rename_response (response_name c) intent (responses_content c) in
          (set_RULES_CONTENT st (create_new_rule (RULES_CONTENT st) resp intent),
           rc, intent, resp)
        else (st, responses_content c, intent_name c, response_name c) in
      let steps := S (steps_iter c) in
      let st :=
        set_RULES_CONTENT st
          (RULES_CONTENT st ++ lit "  - action: " ++ resp ++ lit "_"
           ++ str_of_nat steps ++ [LF]) in
      (st,
       rc ++ lit "  " ++ resp ++ lit "_" ++ str_of_nat steps ++ lit ":" ++ [LF]
          ++ lit "  - text: '",
       steps, intent, resp) in
  let rc := fold_left (fun rc url => rc ++ button_markup url) bs rc in
  (st, mkCursor (rc ++ lit "'" ++ [LF]) steps true intent resp).

Definition process_images (imgs : list str) (c : cursor) : cursor :=
  let rc :=
    fold_left
      (fun rc image_url =>
         rc ++ lit "    image: " ++ [DQUOTE] ++ image_url ++ [DQUOTE] ++ [LF])
      imgs (responses_content c) in
  mkCursor rc (steps_iter c) false (intent_name c) (response_name c).

(** The body of the loop over the messages of the first response. *)
Definition process_message (acc : state * cursor) (m : message)
  : state * cursor :=
  let (st, c) := acc in
  if negb (str_eqb (lang m) (LANGUAGE_SETTING st)) then acc
  else if str_eqb (mtype m) (lit "0") && negb (length (speech m) =? 0) then
    (st,
     fold_left
       (fun c example =>
          mkCursor (responses_content c ++ lit "  - text: '"
                    ++ format_text example ++ lit "'" ++ [LF])
                   (steps_iter c) true (intent_name c) (response_name c))
       (speech m) c)
  else if str_eqb (mtype m) (lit "4") then
    let (st, c) :=
      match buttons (payload m) with
      | Some bs => process_buttons st bs c
      | None => (st, c)
      end in
    match images (payload m) with
    | Some imgs => (st, process_images imgs c)
    | None => (st, c)
    end
  else acc.

(** The body of the loop over the intent files, for one intent file whose
    first response is [response]. *)
Definition process_response (st : state) (rc : str) (response_file : str)
  (response : list message) : state * str :=
  let intent_name := remove_substring response_file (lit ".json") in
  let intent_name := add_group_to_intent_name st intent_name in
  let response_name := lit "utter_" ++ intent_name in
  let rc := rc ++ lit "  " ++ response_name ++ lit ":" ++ [LF] in
  let (st, c) :=
    fold_left process_message response
              (st, mkCursor rc 0 false intent_name response_name) in
  (st, responses_content c).

(** [get_responses]: [None] when an intent file has no response at all
    (the index [0] is out of range) or is not an intent record; the
    globals keep what earlier files changed. *)
Fixpoint get_responses_loop (st : state) (rc : str) (dir : list dir_entry)
  : state * option str :=
  match dir with
  | [] => (st, Some rc)
  | e :: dir' =>
      if is_usersays (fname e) then get_responses_loop st rc dir'
      else match fdata e with
           | Intent (response :: _) =>
               let (st, rc) := process_response st rc (fname e) response in
               get_responses_loop st rc dir'
           | _ => (st, None)
           end
  end.

Definition get_responses (st : state) (dir : list dir_entry)
  : state * option str :=
  get_responses_loop st (lit "responses:" ++ [LF]) dir.

(** ** Main functions *)

Definition version_header : str :=
  lit "version: " ++ [DQUOTE] ++ lit "3.1" ++ [DQUOTE] ++ [LF].

Definition usersays_suffix (st : state) : str :=
  lit "_usersays_" ++ LANGUAGE_SETTING st ++ lit ".json".

(** The loop of [generate_nlu]; [None] when a file read as a usersays file
    is not a list of examples. *)
Fixpoint generate_nlu_loop (st : state) (new_nlu_data : str)
  (dir : list dir_entry) : state * option str :=
  match dir with
  | [] => (st, Some new_nlu_data)
  | e :: dir' =>
      if endswith (fname e) (usersays_suffix st) then
        let intent_name := remove_substring (fname e) (usersays_suffix st) in
        let intent_name := add_group_to_intent_name st intent_name in
        let st := set_INTENT_LIST st (register (INTENT_LIST st) intent_name) in
        match fdata e with
        | UserSays intent_data =>
            let new_nlu_data :=
              new_nlu_data ++ lit "- intent: " ++ intent_name ++ [LF]
              ++ lit "  examples: |" ++ [LF] in
            let new_nlu_data :=
              fold_left
                (fun acc example =>
                   acc ++ lit "    - " ++ concat example ++ [LF])
                intent_data new_nlu_data in
            generate_nlu_loop st (new_nlu_data ++ [LF]) dir'
        | Intent _ => (st, None)
        end
      else generate_nlu_loop st new_nlu_data dir'
  end.

Definition nlu_anchor : str := lit "nlu:" ++ [LF].

Definition generate_nlu (st : state) (dir : list dir_entry) : state :=
  match generate_nlu_loop st nlu_anchor dir with
  | (st, Some new_nlu_data) =>
      match nlu_yml st with
      | Some nlu_file =>
          let nlu_data := universal_newlines nlu_file in
          let start_index := find nlu_data nlu_anchor in
          set_nlu_yml st (Some (slice_to nlu_data start_index ++ new_nlu_data))
      | None => st
      end
  | (st, None) => st
  end.

Definition intents_anchor : str := lit "intents:" ++ [LF].

Definition bullet_list (l : list str) : str :=
  join [LF] (map (fun x => lit "- " ++ x) l).

Definition intents_content (st : state) : str :=
  intents_anchor ++ bullet_list (INTENT_LIST st) ++ [LF; LF].

Definition entities_content (st : state) : str :=
  lit "entities:" ++ [LF] ++ bullet_list (ENTITY_LIST st) ++ [LF; LF].

Definition generate_domain (st : state) (dir : list dir_entry) : state :=
  match get_responses st dir with
  | (st, Some responses_content) =>
      let filedata :=
        match domain_yml st with
        | Some file => universal_newlines file
        | None => version_header
        end in
      let start_index := find filedata intents_anchor in
      let new_text :=
        intents_content st ++ entities_content st ++ responses_content in
      if (start_index =? -1)%Z
      then set_domain_yml st (Some (filedata ++ new_text))
      else set_domain_yml st (Some (slice_to filedata start_index ++ new_text))
  | (st, None) => st
  end.

Definition rules_anchor : str := lit "rules:" ++ [LF].

(** The default rules added for the intents of [INTENT_LIST] that do not
    occur in [RULES_CONTENT]. *)
Definition default_rules (st : state) (new_rules : str) : str :=
  fold_left
    (fun new_rules intent =>
       if contains (RULES_CONTENT st) intent then new_rules
       else new_rules ++ rule_text intent (lit "utter_" ++ intent))
    (INTENT_LIST st) new_rules.

Definition new_rules (st : state) : str :=
  default_rules st (rules_anchor ++ RULES_CONTENT st).

Definition generate_rules (st : state) : state :=
  let rules_data :=
    match rules_yml st with
    | Some rules_file =>
        let rules_data := universal_newlines rules_file in
        let start_index := find rules_data rules_anchor in
        if negb (start_index =? -1)%Z
        then slice_to rules_data start_index ++ new_rules st
        else version_header ++ new_rules st
    | None => version_header ++ new_rules st
    end in
  set_rules_yml st (Some rules_data).

(** [initialize_migration_setup]: the language of the agent is stored and
    the intent list starts as the groups read off the directory listing.
    A missing language aborts the run. *)
Definition initialize_migration_setup (agent_language : str) (st : state)
  (dir : list dir_entry) : option state :=
  match agent_language with
  | [] => None
  | _ :: _ =>
      let st :=
        mkState agent_language (ENTITY_LIST st) (INTENT_LIST st)
                (RULES_CONTENT st) (nlu_yml st) (domain_yml st) (rules_yml st) in
      Some (set_INTENT_LIST st (extract_groups (map fname dir)))
  end.

(** The state of the module when the script starts, over the given
    target files. *)
Definition initial_state (nlu domain rules : option str) : state :=
  mkState [] [] [] [] nlu domain rules.

(** [main], with the entity names [generate_synonyms] collects taken as
    given in [ENTITY_LIST]; the interactive checks ([ok_empty_files],
    [ignore_sys]) stay outside, the listing being the one they leave. *)
Definition main (agent_language : str) (st : state) (dir : list dir_entry)
  : option state :=
  match initialize_migration_setup agent_language st dir with
  | None => None
  | Some st =>
      let st := generate_nlu st dir in
      let st := generate_domain st dir in
      Some (generate_rules st)
  end.

(** * Vocabulary of the statements *)

(** ** Occurrences *)

(** [pre] is the text of [s] before the first occurrence of [sub]. *)
Definition first_occurrence (s sub pre : str) : Prop :=
  (exists post, s = pre ++ sub ++ post)
  /\ forall k, k < length pre -> startswith (skipn k s) sub = false.

(** No occurrence of [sub] in [s]. *)
Definition absent (s sub : str) : Prop :=
  forall k, startswith (skipn k s) sub = false.

(** [result] is [s] with the first occurrence of [old] rewritten to
    [new], or [s] itself when [old] does not occur. *)
Definition rewrites_first (s old new result : str) : Prop :=
  (exists pre post,
      s = pre ++ old ++ post /\ first_occurrence s old pre
      /\ result = pre ++ new ++ post)
  \/ (absent s old /\ result = s).

(** [s] holds no carriage return. *)
Definition no_cr (s : str) : bool := forallb (fun c => negb (N.eqb c CR)) s.

(** ** State *)

(** The part of the state response normalisation cannot touch: the
    language, the entities and the domain and rules documents. *)
Definition same_frame (st st' : state) : Prop :=
  LANGUAGE_SETTING st' = LANGUAGE_SETTING st
  /\ ENTITY_LIST st' = ENTITY_LIST st
  /\ domain_yml st' = domain_yml st
  /\ rules_yml st' = rules_yml st.

(** ** Names *)

Definition SEP : str := lit "-".
Definition NS : str := lit "/".

(** The group [add_group_to_intent_name] selects: a registered prefix of
    the name no shorter than any other registered prefix. *)
Definition longest_match (l : list str) (name g : str) : Prop :=
  In g l /\ startswith name g = true
  /\ forall h, In h l -> startswith name h = true -> length h <= length g.

(** ** Groups, counted over the files *)

(** The candidate group of a filename: the text before its first [-],
    when it has one. *)
Definition prefix_of (filename : str) : option str :=
  match split1 filename 45%N with
  | prefix :: _ :: _ => Some prefix
  | _ => None
  end.

(** The training-phrase files of a listing. *)
Definition training_files (filenames : list str) : list str :=
  filter is_usersays filenames.

Definition has_prefix (p f : str) : bool :=
  match prefix_of f with
  | Some q => str_eqb p q
  | None => false
  end.

(** How many training-phrase files carry the prefix [p]. *)
Definition tally (filenames : list str) (p : str) : nat :=
  length (filter (has_prefix p) (training_files filenames)).

(** How many training-phrase files count as ungrouped: those without a
    separator and those whose prefix occurs fewer than two times. *)
Definition ungrouped (filenames : list str) : nat :=
  length
    (filter
       (fun f =>
          match prefix_of f with
          | None => true
          | Some q => tally filenames q <? 2
          end)
       (training_files filenames)).

(** What the loop of [extract_groups] sees: the prefixes it tallies, in
    order, and the number of files without separator. *)
Definition file_prefixes (filenames : list str) : list str :=
  flat_map (fun f => match prefix_of f with Some p => [p] | None => [] end)
           (training_files filenames).

Definition unprefixed (filenames : list str) : nat :=
  length (filter (fun f => match prefix_of f with None => true | _ => false end)
                 (training_files filenames)).

Definition count_str (p : str) (l : list str) : nat :=
  length (filter (str_eqb p) l).

(** Reading the dictionary: the count stored for [p], [0] when absent. *)
Fixpoint get (d : list (str * nat)) (p : str) : nat :=
  match d with
  | [] => 0
  | (k, c) :: d' => if str_eqb k p then c else get d' p
  end.

(** A dictionary holds each key once, with a positive count. *)
Definition well_formed (d : list (str * nat)) : Prop :=
  NoDup (map fst d) /\ Forall (fun pc => 0 < snd pc) d.

(** ** Responses and rules *)

(** The response of an intent file that [get_responses] reads. *)
Definition first_response (e : dir_entry) : option (list message) :=
  match fdata e with
  | Intent (response :: _) => Some response
  | _ => None
  end.

Definition same_first_response (e1 e2 : dir_entry) : Prop :=
  fname e1 = fname e2 /\ first_response e1 = first_response e2.

(** A plain-text message, and a rich message carrying buttons only, in
    the configured language. *)
Definition is_text (st : state) (m : message) : Prop :=
  lang m = LANGUAGE_SETTING st /\ mtype m = lit "0".


(** The header of a response block or sub-block, a text step, and the
    text step that holds nothing but button markup. *)
Definition block_header (name : str) : str :=
  lit "  " ++ name ++ lit ":" ++ [LF].

Definition text_step (example : str) : str :=
  lit "  - text: '" ++ format_text example ++ lit "'" ++ [LF].


(** The rendering of a rule block: a trigger and its actions in order. *)
Definition render_rule (intent : str) (actions : list str) : str :=
  [LF] ++ lit "- rule: Respond to " ++ intent ++ [LF]
  ++ lit "  steps:" ++ [LF]
  ++ lit "  - intent: " ++ intent ++ [LF]
  ++ concat (map (fun a => lit "  - action: " ++ a ++ [LF]) actions).

(** * Sample exports and documents *)

Definition plain_state : state :=
  mkState (lit "en") [] [] [] None None None.

(** States whose documents hold hand-written text, before their anchors
    and without any anchor. *)
Definition hand_written : str := lit "# hand written" ++ [LF].

Definition anchored_state : state :=
  mkState (lit "en") [] [] []
          (Some (hand_written ++ nlu_anchor ++ lit "- intent: old" ++ [LF]))
          (Some (hand_written ++ intents_anchor ++ lit "- old" ++ [LF]))
          (Some (hand_written ++ rules_anchor ++ lit "- rule: old" ++ [LF])).

(** The same documents as an editor that ends lines with a carriage
    return and a line feed saves them. *)
Definition hand_written_crlf : str := lit "# hand written" ++ [CR; LF].

Definition anchored_crlf_state : state :=
  mkState (lit "en") [] [] []
          (Some (hand_written_crlf ++ nlu_anchor ++ lit "- intent: old" ++ [LF]))
          (Some (hand_written_crlf ++ intents_anchor ++ lit "- old" ++ [LF]))
          (Some (hand_written_crlf ++ rules_anchor ++ lit "- rule: old" ++ [LF])).

Definition unanchored_state : state :=
  mkState (lit "en") [] [lit "faq"] [] None
          (Some hand_written) (Some hand_written).

Definition greet_state : state :=
  mkState (lit "en") [] [lit "greet"] [] None None None.

Definition greet_other_state : state :=
  mkState (lit "en") [] [lit "greet"; DEFAULT_GROUP] [] None None None.

(** The training-phrase file of an intent, for the language [en]. *)
Definition usersays_name (intent : string) : str :=
  lit intent ++ lit "_usersays_en.json".

Definition example_listing : list str :=
  [usersays_name "greet-hello"; usersays_name "greet-hello";
   usersays_name "greet-hello"; usersays_name "greet-bye";
   usersays_name "greet-bye"; usersays_name "faq"].

Definition example_state : state :=
  mkState (lit "en") [] (extract_groups example_listing) [] None None None.

(** Messages in the configured language [en]. *)
Definition text_message (ss : list string) : message :=
  mkMessage (lit "en") (lit "0") (map lit ss) (mkPayload None None).

Definition buttons_message (bs : list (string * string)) : message :=
  mkMessage (lit "en") (lit "4") []
            (mkPayload (Some (map (fun b => mkButton (lit (fst b)) (lit (snd b))) bs))
                       None).

Definition images_message (urls : list string) : message :=
  mkMessage (lit "en") (lit "4") [] (mkPayload None (Some (map lit urls))).

(** A plain-text message in another language: skipped by the normaliser. *)
Definition foreign_message : message :=
  mkMessage (lit "fr") (lit "0") [lit "Bonjour"] (mkPayload None None).

Definition visit : list (string * string) := [("Visit", "http://x")]%string.


(** An export with the group [greet] whose intent [greet-hello] answers
    with buttons first. *)
Definition grouped_export : list dir_entry :=
  [mkEntry (usersays_name "greet-hello") (UserSays [[lit "hello"]]);
   mkEntry (usersays_name "greet-bye") (UserSays [[lit "bye"]]);
   mkEntry (usersays_name "faq") (UserSays [[lit "help"]]);
   mkEntry (lit "greet-hello.json")
           (Intent [[buttons_message visit; text_message ["Hello"%string]]]);
   mkEntry (lit "greet-bye.json") (Intent [[text_message ["Bye"%string]]]);
   mkEntry (lit "faq.json") (Intent [[text_message ["See the manual"%string]]])].


(** A listing with the one group [a]. *)
Definition single_group_listing : list str :=
  [usersays_name "a-ba-c"; usersays_name "a-d"; usersays_name "faq"].

Definition single_group_state : state :=
  mkState (lit "en") [] (extract_groups single_group_listing) [] None None None.

(** An export with the group [action] and the ungrouped intent [info],
    which answers with buttons first. *)
Definition action_export : list dir_entry :=
  [mkEntry (usersays_name "action-start") (UserSays [[lit "start"]]);
   mkEntry (usersays_name "action-stop") (UserSays [[lit "stop"]]);
   mkEntry (usersays_name "info") (UserSays [[lit "tell me more"]]);
   mkEntry (lit "action-start.json") (Intent [[text_message ["Starting"%string]]]);
   mkEntry (lit "action-stop.json") (Intent [[text_message ["Stopping"%string]]]);
   mkEntry (lit "info.json")
           (Intent [[buttons_message visit; text_message ["More"%string]]])].

(** * The synonyms document and the empty-file check *)







(** The test of [ok_empty_files]: some message of type [0] of some
    response carries a non-empty [speech]. *)
Definition has_text_response (response_data : list (list message)) : bool :=
  existsb
    (fun response =>
       existsb
         (fun m => str_eqb (mtype m) (lit "0") && negb (length (speech m) =? 0))
         response)
    response_data.

(** ** Vocabulary of the further statements *)

(** What [format_text] does to one character. *)
Definition normalise_char (c : char) : char :=
  if N.eqb c LDQUOTE then DQUOTE
  else if N.eqb c RDQUOTE then DQUOTE
  else if N.eqb c LF then 32%N
  else c.

(** An intent file that passes the empty-file check. *)
Definition passes_empty_check (e : dir_entry) : bool :=
  match fdata e with
  | Intent response_data => has_text_response response_data
  | UserSays _ => false
  end.

(** The default rule of an intent and the name of a numbered sub-block. *)
Definition default_rule (intent : str) : str :=
  render_rule intent [lit "utter_" ++ intent].

Definition sub_block (response_name : str) (i : nat) : str :=
  response_name ++ lit "_" ++ str_of_nat i.




(** Two states that differ at most in the corpus document. *)
Definition same_but_nlu (st st' : state) : Prop :=
  LANGUAGE_SETTING st' = LANGUAGE_SETTING st
  /\ ENTITY_LIST st' = ENTITY_LIST st
  /\ INTENT_LIST st' = INTENT_LIST st
  /\ RULES_CONTENT st' = RULES_CONTENT st
  /\ domain_yml st' = domain_yml st
  /\ rules_yml st' = rules_yml st.

(** The rules text and the intent list only grow, the rest of the frame
    stays. *)
Definition grows (st st' : state) : Prop :=
  (exists r, RULES_CONTENT st' = RULES_CONTENT st ++ r)
  /\ (exists l, INTENT_LIST st' = INTENT_LIST st ++ l)
  /\ same_frame st st'.

(** What holds of the state and the cursor while the messages of one
    response are processed, [name] being the resolved identifier and [r0],
    [l0] the rules text and intent list at the start: either no turn was
    opened, or the intent was renamed to its short name and one rule with
    the base response and the sub-blocks [1] to [k + 1] was added. *)
Definition rule_invariant (name r0 : str) (l0 : list str)
  (acc : state * cursor) : Prop :=
  let short := last (split1 name 47%N) [] in
  let resp := lit "utter_" ++ short in
  let (st, c) := acc in
  (steps_iter c = 0 /\ intent_name c = name
   /\ response_name c = lit "utter_" ++ name
   /\ RULES_CONTENT st = r0 /\ INTENT_LIST st = l0)
  \/ (exists k,
         steps_iter c = S k /\ response_name c = resp
         /\ RULES_CONTENT st
            = r0 ++ render_rule short (resp :: map (sub_block resp) (seq 1 (S k)))
         /\ INTENT_LIST st = register l0 short).

(** An export whose two training-phrase files are both ungrouped. *)
Definition ungrouped_export : list dir_entry :=
  [mkEntry (usersays_name "faq") (UserSays [[lit "help"]]);
   mkEntry (usersays_name "bye") (UserSays [[lit "bye"]])].




(** * Properties *)

(** ** Facts about the text operations *)

Lemma str_eqb_eq (a b : str) : str_eqb a b = true <-> a = b.
Proof.
  revert b; induction a as [|x a IH]; intros [|y b]; simpl;
    try (split; [discriminate | congruence]); try tauto.
  rewrite andb_true_iff, N.eqb_eq, IH.
  split; [intros [-> ->]; reflexivity | intros E; inversion E; auto].
Qed.

Lemma str_eqb_refl (a : str) : str_eqb a a = true.
Proof. apply str_eqb_eq; reflexivity. Qed.

Lemma str_eqb_neq (a b : str) : str_eqb a b = false <-> a <> b.
Proof.
  rewrite <- str_eqb_eq. destruct (str_eqb a b); split; congruence.
Qed.

Lemma str_eqb_sym (a b : str) : str_eqb a b = str_eqb b a.
Proof.
  destruct (str_eqb b a) eqn:E.
  - apply str_eqb_eq in E. subst. apply str_eqb_refl.
  - apply str_eqb_neq. apply str_eqb_neq in E. congruence.
Qed.

Lemma startswith_iff (s p : str) :
  startswith s p = true <-> exists r, s = p ++ r.
Proof.
  revert s; induction p as [|a p IH]; intros s; simpl.
  - split; [exists s; reflexivity | reflexivity].
  - destruct s as [|b s].
    + split; [discriminate | intros [r E]; discriminate].
    + rewrite andb_true_iff, N.eqb_eq, IH. split.
      * intros [-> [r ->]]. exists r; reflexivity.
      * intros [r E]. inversion E; subst. split; [reflexivity | exists r; reflexivity].
Qed.

Lemma startswith_app (p r : str) : startswith (p ++ r) p = true.
Proof. apply startswith_iff. exists r; reflexivity. Qed.

Lemma startswith_firstn (s p : str) :
  startswith s p = true <-> firstn (length p) s = p.
Proof.
  rewrite startswith_iff. split.
  - intros [r ->]. rewrite firstn_app, Nat.sub_diag, firstn_all. simpl.
    apply app_nil_r.
  - intros E. exists (skipn (length p) s).
    rewrite <- E at 1. symmetry. apply firstn_skipn.
Qed.

Lemma find_nat_eq (s sub : str) :
  find_nat s sub =
  if startswith s sub then Some 0
  else match s with
       | [] => None
       | _ :: s' => option_map S (find_nat s' sub)
       end.
Proof. destruct s; reflexivity. Qed.

Lemma find_nat_first (s sub pre : str) :
  first_occurrence s sub pre -> find_nat s sub = Some (length pre).
Proof.
  revert s; induction pre as [|c pre IH]; intros s [[post ->] Hno];
    rewrite find_nat_eq.
  - simpl. rewrite startswith_app. reflexivity.
  - assert (H0 := Hno 0 (Nat.lt_0_succ _)). simpl in H0.
    simpl app. rewrite H0. rewrite IH; [reflexivity|].
    split; [exists post; reflexivity|].
    intros k Hk. apply (Hno (S k)). simpl. lia.
Qed.

Lemma find_nat_bound (s sub : str) (i : nat) :
  find_nat s sub = Some i -> i <= length s.
Proof.
  revert i; induction s as [|c s IH]; intros i; simpl.
  - destruct (startswith [] sub); [|discriminate].
    intros E; inversion E; lia.
  - destruct (startswith (c :: s) sub).
    + intros E; inversion E; lia.
    + destruct (find_nat s sub) as [j|]; [|discriminate]. simpl.
      intros E; inversion E; subst. specialize (IH j eq_refl). lia.
Qed.

Lemma find_nat_occurs (s sub : str) (i : nat) :
  find_nat s sub = Some i ->
  first_occurrence s sub (firstn i s).
Proof.
  revert i; induction s as [|c s IH]; intros i; simpl.
  - destruct (startswith [] sub) eqn:E; [|discriminate].
    intros H; inversion H; subst. simpl. split.
    + apply startswith_iff in E. destruct E as [r E]. exists r. exact E.
    + simpl; intros; lia.
  - destruct (startswith (c :: s) sub) eqn:E.
    + intros H; inversion H; subst. simpl. split.
      * apply startswith_iff in E. destruct E as [r E]. exists r. exact E.
      * simpl; intros; lia.
    + destruct (find_nat s sub) as [j|] eqn:F; [|discriminate]. simpl.
      intros H; inversion H; subst. destruct (IH j eq_refl) as [[post Hp] Hno].
      split.
      * exists post. simpl. f_equal. exact Hp.
      * intros [|k] Hk; [exact E|]. simpl. apply Hno.
        simpl in Hk. lia.
Qed.

Lemma find_nat_none (s sub : str) (k : nat) :
  find_nat s sub = None -> startswith (skipn k s) sub = false.
Proof.
  revert k; induction s as [|c s IH]; intros k; simpl.
  - destruct (startswith [] sub) eqn:E; [discriminate|].
    intros _. destruct k; exact E.
  - destruct (startswith (c :: s) sub) eqn:E; [discriminate|].
    destruct (find_nat s sub) eqn:F; [discriminate|]. intros _.
    destruct k as [|k]; [exact E | apply IH; reflexivity].
Qed.

(** A text that contains [sub] has a part before its first occurrence. *)
Lemma contains_first_occurrence (s sub : str) :
  contains s sub = true -> exists pre, first_occurrence s sub pre.
Proof.
  unfold contains. destruct (find_nat s sub) as [i|] eqn:E; [|discriminate].
  intros _. exists (firstn i s). apply find_nat_occurs. exact E.
Qed.

Lemma find_first (s sub pre : str) :
  first_occurrence s sub pre -> find s sub = Z.of_nat (length pre).
Proof. intros H. unfold find. rewrite (find_nat_first H). reflexivity. Qed.


Lemma slice_to_nat (s : str) (n : nat) : slice_to s (Z.of_nat n) = firstn n s.
Proof.
  unfold slice_to. destruct (Z.ltb_spec (Z.of_nat n) 0); [lia|].
  rewrite Nat2Z.id. reflexivity.
Qed.

Lemma slice_to_first (s sub pre : str) :
  first_occurrence s sub pre -> slice_to s (find s sub) = pre.
Proof.
  intros H. rewrite (find_first H), slice_to_nat.
  destruct H as [[post ->] _].
  rewrite firstn_app, Nat.sub_diag, firstn_all. simpl. apply app_nil_r.
Qed.

Lemma find_first_ne (s sub pre : str) :
  first_occurrence s sub pre -> (find s sub =? -1)%Z = false.
Proof. intros H. rewrite (find_first H). apply Z.eqb_neq. lia. Qed.

(** Dropping the last [n] characters: [s[:-n]] for a positive [n]. *)
Lemma slice_to_neg_app (s t : str) :
  0 < length t -> slice_to (s ++ t) (- Z.of_nat (length t)) = s.
Proof.
  intros Ht. unfold slice_to.
  destruct (Z.ltb_spec (- Z.of_nat (length t)) 0); [|lia].
  rewrite Z.opp_involutive, Nat2Z.id, length_app.
  replace (length s + length t - length t) with (length s) by lia.
  rewrite firstn_app, Nat.sub_diag, firstn_all. simpl. apply app_nil_r.
Qed.

(** ** Occurrences and the text behind them *)

Lemma firstn_skipn_app (a post : str) (k n : nat) :
  k + n <= length a ->
  firstn n (skipn k (a ++ post)) = firstn n (skipn k a).
Proof.
  intros H. rewrite skipn_app, firstn_app.
  replace (k - length a) with 0 by lia.
  replace (n - length (skipn k a)) with 0 by (rewrite length_skipn; lia).
  simpl. apply app_nil_r.
Qed.

Lemma startswith_same_start (s s' p : str) :
  firstn (length p) s = firstn (length p) s' ->
  startswith s p = startswith s' p.
Proof.
  intros E. destruct (startswith s' p) eqn:H.
  - apply startswith_firstn. apply startswith_firstn in H. congruence.
  - destruct (startswith s p) eqn:H'; [|reflexivity].
    apply startswith_firstn in H'. rewrite E in H'.
    apply startswith_firstn in H'. congruence.
Qed.

(** The first occurrence of [sub] after [pre] stays the first one when
    the text behind it is replaced. *)
Lemma first_occurrence_other_tail (pre sub post post' : str) :
  first_occurrence (pre ++ sub ++ post) sub pre ->
  first_occurrence (pre ++ sub ++ post') sub pre.
Proof.
  intros [_ Hno]. split; [exists post'; reflexivity|].
  intros k Hk. rewrite <- (Hno k Hk). apply startswith_same_start.
  rewrite !app_assoc.
  rewrite (firstn_skipn_app (pre ++ sub) post'),
          (firstn_skipn_app (pre ++ sub) post)
    by (rewrite length_app; lia).
  reflexivity.
Qed.

(** ** Reading a document *)

Lemma universal_newlines_no_cr (s : str) :
  no_cr s = true -> universal_newlines s = s.
Proof.
  induction s as [|c s IH]; [reflexivity|]. intros H.
  apply andb_true_iff in H as [Hc Hs]. apply negb_true_iff in Hc.
  cbn [universal_newlines]. rewrite Hc, (IH Hs). reflexivity.
Qed.

Lemma universal_newlines_app (a b : str) :
  no_cr a = true -> universal_newlines (a ++ b) = a ++ universal_newlines b.
Proof.
  induction a as [|c a IH]; [reflexivity|]. intros H.
  apply andb_true_iff in H as [Hc Ha]. apply negb_true_iff in Hc.
  simpl app. cbn [universal_newlines]. rewrite Hc, (IH Ha). reflexivity.
Qed.

Lemma no_cr_app (a b : str) : no_cr (a ++ b) = no_cr a && no_cr b.
Proof. apply forallb_app. Qed.

Lemma no_cr_firstn (n : nat) (s : str) : no_cr s = true -> no_cr (firstn n s) = true.
Proof.
  revert n; induction s as [|c s IH]; intros [|n] H; try reflexivity.
  apply andb_true_iff in H as [Hc Hs]. simpl. rewrite Hc. exact (IH n Hs).
Qed.

(** The text read holds no carriage return. *)
Lemma universal_newlines_clean (s : str) : no_cr (universal_newlines s) = true.
Proof.
  assert (H : forall n s, length s <= n -> no_cr (universal_newlines s) = true).
  { clear s. induction n as [|n IH]; intros [|c s] Hn; try reflexivity.
    - simpl in Hn. lia.
    - simpl in Hn. cbn [universal_newlines].
      destruct (N.eqb c CR) eqn:Hc.
      + change (no_cr (LF :: ?x)) with (no_cr x).
        destruct s as [|d s]; [reflexivity|].
        destruct (N.eqb d LF); apply IH; simpl in *; lia.
      + simpl. rewrite Hc. apply IH. lia. }
  apply (H (length s)). lia.
Qed.

Lemma universal_newlines_idempotent (s : str) :
  universal_newlines (universal_newlines s) = universal_newlines s.
Proof. apply universal_newlines_no_cr, universal_newlines_clean. Qed.


Lemma no_cr_before (s sub pre : str) :
  no_cr s = true -> first_occurrence s sub pre -> no_cr pre = true.
Proof.
  intros H [[post E] _]. rewrite E, no_cr_app in H.
  apply andb_true_iff in H. apply H.
Qed.

(** ** What the loops leave alone *)

Lemma fold_left_preserves (A B : Type) (P : A -> Prop) (f : A -> B -> A)
  (l : list B) (a : A) :
  (forall a x, P a -> P (f a x)) -> P a -> P (fold_left f l a).
Proof.
  intros Hf; revert a; induction l as [|x l IH]; intros a Ha; simpl; auto.
Qed.

Lemma same_frame_refl (st : state) : same_frame st st.
Proof. repeat split. Qed.

Lemma same_frame_trans (a b c : state) :
  same_frame a b -> same_frame b c -> same_frame a c.
Proof.
  unfold same_frame; intros (?&?&?&?) (?&?&?&?); repeat split; congruence.
Qed.

Lemma rename_intent_frame (st : state) (name : str) :
  same_frame st (fst (rename_intent st name)).
Proof.
  unfold rename_intent, replace_in_file; simpl.
  destruct (nlu_yml st); repeat split.
Qed.

Lemma process_buttons_frame (st : state) (bs : list button) (c : cursor) :
  same_frame st (fst (process_buttons st bs c)).
Proof.
  unfold process_buttons.
  destruct (after_text c); [apply same_frame_refl|].
  destruct (steps_iter c =? 0); [|repeat split].
  pose proof (rename_intent_frame st (intent_name c)) as H.
  destruct (rename_intent st (intent_name c)) as [st1 i1]; simpl in *.
  destruct H as (?&?&?&?); repeat split; simpl; assumption.
Qed.

Lemma process_message_frame (acc : state * cursor) (m : message) :
  same_frame (fst acc) (fst (process_message acc m)).
Proof.
  destruct acc as [st c]; unfold process_message; simpl.
  destruct (negb (str_eqb (lang m) (LANGUAGE_SETTING st)));
    [apply same_frame_refl|].
  destruct (str_eqb (mtype m) (lit "0") && negb (length (speech m) =? 0));
    [apply same_frame_refl|].
  destruct (str_eqb (mtype m) (lit "4")); [|apply same_frame_refl].
  destruct (buttons (payload m)) as [bs|].
  - pose proof (process_buttons_frame st bs c) as H.
    destruct (process_buttons st bs c) as [st1 c1]; simpl in *.
    destruct (images (payload m)); exact H.
  - destruct (images (payload m)); apply same_frame_refl.
Qed.

Lemma process_response_frame (st : state) (rc file : str)
  (response : list message) :
  same_frame st (fst (process_response st rc file response)).
Proof.
  unfold process_response.
  set (c0 := mkCursor _ _ _ _ _).
  assert (H : same_frame st (fst (fold_left process_message response (st, c0)))).
  { apply (fold_left_preserves (fun acc => same_frame st (fst acc))).
    - intros a x Ha. eapply same_frame_trans; [exact Ha|].
      apply process_message_frame.
    - apply same_frame_refl. }
  destruct (fold_left process_message response (st, c0)); exact H.
Qed.

Lemma get_responses_loop_frame (dir : list dir_entry) (st : state) (rc : str) :
  same_frame st (fst (get_responses_loop st rc dir)).
Proof.
  revert st rc; induction dir as [|e dir IH]; intros st rc; simpl.
  - apply same_frame_refl.
  - destruct (is_usersays (fname e)); [apply IH|].
    destruct (fdata e) as [ex|[|r rs]]; try apply same_frame_refl.
    pose proof (process_response_frame st rc (fname e) r) as H.
    destruct (process_response st rc (fname e) r) as [st1 rc1]; simpl in H.
    eapply same_frame_trans; [exact H | apply IH].
Qed.

Lemma get_responses_frame (st : state) (dir : list dir_entry) :
  same_frame st (fst (get_responses st dir)).
Proof. apply get_responses_loop_frame. Qed.


(** ** Document Merger *)








(** The corpus document is sliced at the index [find] returns even when
    that index is [-1]: the last character of the existing text is lost. *)
Example nlu_without_anchor_loses_last_character :
  let st := mkState (lit "en") [] [] [] (Some (lit "abc")) None None in
  nlu_yml (generate_nlu st []) = Some (lit "ab" ++ nlu_anchor).
Proof. vm_compute. reflexivity. Qed.

(** An anchor line that ends in a carriage return and a line feed is an
    anchor of the text read: the rules before it are kept and the
    document is not started afresh. *)
Example anchor_line_with_carriage_return :
  let doc := lit "# my own notes" ++ [LF] ++ lit "rules:" ++ [CR; LF] in
  let st := mkState (lit "en") [] [] [] None None (Some doc) in
  contains doc rules_anchor = false
  /\ rules_yml (generate_rules st)
     = Some (lit "# my own notes" ++ [LF] ++ rules_anchor).
Proof. vm_compute. split; reflexivity. Qed.



(** ** Name Resolver *)

Lemma mem_iff (x : str) (l : list str) : mem x l = true <-> In x l.
Proof.
  unfold mem. rewrite existsb_exists. split.
  - intros [y [Hy E]]. apply str_eqb_eq in E. subst. exact Hy.
  - intros H. exists x. split; [exact H | apply str_eqb_refl].
Qed.


Lemma max_len_spec (g : str) (l : list str) :
  In (max_len g l) (g :: l)
  /\ forall h, In h (g :: l) -> length h <= length (max_len g l).
Proof.
  revert g; induction l as [|h l IH]; intros g; simpl.
  - split; [left; reflexivity|]. intros h [<-|[]]. lia.
  - destruct (Nat.ltb_spec (length g) (length h)).
    + destruct (IH h) as [Hin Hmax]. split.
      * right. exact Hin.
      * intros k [<-|Hk]; [|apply Hmax; exact Hk].
        specialize (Hmax h (or_introl eq_refl)). lia.
    + destruct (IH g) as [Hin Hmax]. split.
      * destruct Hin as [E|Hin]; [left; exact E | right; right; exact Hin].
      * intros k [<-|[<-|Hk]].
        -- apply Hmax. left; reflexivity.
        -- specialize (Hmax g (or_introl eq_refl)). lia.
        -- apply Hmax. right. exact Hk.
Qed.

Lemma contains_false_absent (s sub : str) :
  contains s sub = false <-> absent s sub.
Proof.
  unfold contains, absent. split.
  - destruct (find_nat s sub) eqn:E; [discriminate|].
    intros _ k. apply find_nat_none. exact E.
  - intros H. destruct (find_nat s sub) as [i|] eqn:E; [|reflexivity].
    destruct (find_nat_occurs _ _ E) as [[post Hp] _].
    specialize (H i). rewrite Hp in H at 1.
    assert (Hi : i <= length s) by (eapply find_nat_bound; exact E).
    rewrite skipn_app, skipn_all2 in H by (rewrite length_firstn; lia).
    rewrite length_firstn, Nat.min_l in H by lia.
    rewrite Nat.sub_diag in H. simpl in H.
    rewrite startswith_app in H. discriminate.
Qed.

Lemma replace_scan_done (old new : str) (s : str) (k : nat) :
  replace_scan old new (Some 0) k s = skipn k s.
Proof.
  revert k; induction s as [|c s IH]; intros [|k]; simpl; try reflexivity.
  - rewrite IH. reflexivity.
  - apply IH.
Qed.

Lemma replace_scan_absent (old new : str) (count : option nat) (s : str) :
  absent s old -> replace_scan old new count 0 s = s.
Proof.
  induction s as [|c s IH]; intros H; simpl; [reflexivity|].
  pose proof (H 0) as H0. simpl in H0. rewrite H0, andb_false_r.
  f_equal. apply IH. intros k. apply (H (S k)).
Qed.

Lemma replace_scan_first (old new pre post : str) :
  old <> [] ->
  first_occurrence (pre ++ old ++ post) old pre ->
  replace_scan old new (Some 1) 0 (pre ++ old ++ post) = pre ++ new ++ post.
Proof.
  intros Hold. induction pre as [|c pre IH]; intros [_ Hno].
  - destruct old as [|a old]; [congruence|]. simpl app.
    cbn [replace_scan count_left andb].
    change (a :: old ++ post) with ((a :: old) ++ post).
    rewrite startswith_app. cbn [count_dec pred length].
    replace (S (length old) - 1) with (length old) by lia.
    rewrite replace_scan_done.
    rewrite skipn_app, skipn_all, Nat.sub_diag. reflexivity.
  - pose proof (Hno 0 (Nat.lt_0_succ _)) as H0. simpl in H0.
    simpl app. cbn [replace_scan]. rewrite H0, andb_false_r.
    f_equal. apply IH. split; [exists post; reflexivity|].
    intros k Hk. apply (Hno (S k)). simpl. lia.
Qed.

Lemma replace_first_spec (s old new : str) :
  old <> [] -> rewrites_first s old new (replace s old new (Some 1)).
Proof.
  intros Hold. unfold replace. destruct old as [|a old]; [congruence|].
  destruct (find_nat s (a :: old)) as [i|] eqn:E.
  - left. pose proof (find_nat_occurs _ _ E) as Hocc.
    destruct (Hocc) as [[post Hp] _].
    exists (firstn i s), post. split; [exact Hp|]. split; [exact Hocc|].
    rewrite Hp at 1. apply replace_scan_first; [discriminate|].
    rewrite <- Hp. exact Hocc.
  - right. assert (Habs : absent s (a :: old)).
    { apply contains_false_absent. unfold contains. rewrite E. reflexivity. }
    split; [exact Habs | apply replace_scan_absent; exact Habs].
Qed.

Lemma add_group_matched (st : state) (name : str) :
  (exists g, In g (INTENT_LIST st) /\ startswith name g = true) ->
  exists g, longest_match (INTENT_LIST st) name g
            /\ add_group_to_intent_name st name
               = replace name (g ++ SEP) (g ++ NS) (Some 1).
Proof.
  intros [g0 [Hin0 Hs0]]. unfold add_group_to_intent_name.
  destruct (filter (startswith name) (INTENT_LIST st)) as [|g rest] eqn:F.
  - assert (H : In g0 (filter (startswith name) (INTENT_LIST st)))
      by (apply filter_In; auto).
    rewrite F in H. destruct H.
  - destruct (max_len_spec g rest) as [Hin Hmax]. rewrite <- F in Hin, Hmax.
    exists (max_len g rest). split; [|reflexivity].
    apply filter_In in Hin. destruct Hin as [Hin Hs].
    repeat split; auto.
    intros h Hh Hsh. apply Hmax. apply filter_In; auto.
Qed.

Lemma add_group_unmatched (st : state) (name : str) :
  (forall g, In g (INTENT_LIST st) -> startswith name g = false) ->
  add_group_to_intent_name st name
  = if mem DEFAULT_GROUP (INTENT_LIST st)
    then DEFAULT_GROUP ++ NS ++ name else name.
Proof.
  intros Hno. unfold add_group_to_intent_name.
  destruct (filter (startswith name) (INTENT_LIST st)) as [|g rest] eqn:F;
    [reflexivity|].
  assert (H : In g (filter (startswith name) (INTENT_LIST st)))
    by (rewrite F; left; reflexivity).
  apply filter_In in H. destruct H as [Hin Hs].
  rewrite (Hno g Hin) in Hs. discriminate.
Qed.

Lemma add_group_matched_rewrites (st : state) (name : str) :
  (exists g, In g (INTENT_LIST st) /\ startswith name g = true) ->
  exists g, longest_match (INTENT_LIST st) name g
            /\ rewrites_first name (g ++ SEP) (g ++ NS)
                              (add_group_to_intent_name st name).
Proof.
  intros H. destruct (add_group_matched st name H) as [g [Hg E]].
  exists g. split; [exact Hg|]. rewrite E.
  apply replace_first_spec. destruct g; discriminate.
Qed.




Lemma has_match_dec (l : list str) (name : str) :
  (exists g, In g l /\ startswith name g = true)
  \/ (forall g, In g l -> startswith name g = false).
Proof.
  induction l as [|h l [[g [Hin Hs]]|Hno]].
  - right. intros g [].
  - left. exists g. split; [right; exact Hin | exact Hs].
  - destruct (startswith name h) eqn:E.
    + left. exists h. split; [left; reflexivity | exact E].
    + right. intros g [<-|Hg]; [exact E | apply Hno; exact Hg].
Qed.

Lemma replace_absent (s old new : str) (count : option nat) :
  old <> [] -> absent s old -> replace s old new count = s.
Proof.
  intros Hold Habs. unfold replace. destruct old; [congruence|].
  apply replace_scan_absent. exact Habs.
Qed.

Lemma startswith_middle (pre g a b : str) :
  startswith (pre ++ g ++ a) g = true -> startswith (pre ++ g ++ b) g = true.
Proof.
  rewrite !startswith_firstn, !app_assoc, !firstn_app.
  replace (length g - length (pre ++ g)) with 0
    by (rewrite length_app; lia).
  simpl. auto.
Qed.

(** A resolved identifier keeps the group it was matched with as a
    prefix. *)
Lemma rewrites_first_keeps_prefix (name g x : str) :
  startswith name g = true ->
  rewrites_first name (g ++ SEP) (g ++ NS) x ->
  startswith x g = true.
Proof.
  intros Hs [(pre & post & E & _ & ->)|[_ ->]]; [|exact Hs].
  rewrite E in Hs. rewrite <- app_assoc in Hs |- *.
  eapply startswith_middle. exact Hs.
Qed.

Lemma prefix_same_length (s a b : str) :
  startswith s a = true -> startswith s b = true -> length a = length b ->
  a = b.
Proof.
  intros Ha Hb E. apply startswith_firstn in Ha, Hb.
  rewrite <- Ha, <- Hb, E. reflexivity.
Qed.

Lemma longest_match_same (l : list str) (name g h : str) :
  longest_match l name g -> longest_match l name h -> g = h.
Proof.
  intros (Hg & Hsg & Hmg) (Hh & Hsh & Hmh).
  apply (prefix_same_length name); try assumption.
  specialize (Hmg h Hh Hsh). specialize (Hmh g Hg Hsg). lia.
Qed.

(** An identifier with a listed prefix is returned as it is exactly when
    its longest listed prefix followed by [-] occurs nowhere in it. *)
Lemma add_group_fixed_iff (st : state) (x : str) :
  (exists g, In g (INTENT_LIST st) /\ startswith x g = true) ->
  add_group_to_intent_name st x = x
  <-> (forall g, longest_match (INTENT_LIST st) x g -> absent x (g ++ SEP)).
Proof.
  intros Hm. destruct (add_group_matched_rewrites st x Hm) as [g0 [Hg0 Hr]].
  split.
  - intros E g Hg. rewrite (longest_match_same Hg Hg0).
    destruct Hr as [(pre & post & Ex & _ & Er)|[Habs _]]; [|exact Habs].
    rewrite E in Er. rewrite Er in Ex at 1.
    apply app_inv_head in Ex. rewrite <- !app_assoc in Ex.
    apply app_inv_head in Ex. discriminate Ex.
  - intros Hno. specialize (Hno g0 Hg0).
    destruct Hr as [(pre & post & Ex & _ & _)|[_ Er]]; [|exact Er].
    specialize (Hno (length pre)). rewrite Ex in Hno.
    rewrite skipn_app, skipn_all, Nat.sub_diag in Hno. simpl in Hno.
    rewrite startswith_app in Hno. discriminate Hno.
Qed.

(** A resolved identifier that begins with no group followed by [-] is
    rewritten again when the group followed by [-] occurs further on:
    with the one group [a], [a-ba-c] resolves to [a/ba-c] and that to
    [a/ba/c]. *)
Lemma resolved_identifier_rewritten_again :
  let st := single_group_state in
  let x := add_group_to_intent_name st (lit "a-ba-c") in
  INTENT_LIST st = [lit "a"]
  /\ x = lit "a/ba-c"
  /\ (forall g, In g (INTENT_LIST st) -> startswith x (g ++ SEP) = false)
  /\ add_group_to_intent_name st x = lit "a/ba/c"
  /\ add_group_to_intent_name st x <> x.
Proof.
  split; [reflexivity|]. split; [reflexivity|]. split.
  - intros g [<-|[]]. reflexivity.
  - split; [reflexivity|]. vm_compute. discriminate.
Qed.

(** C8, amended.  Resolving a resolved identifier again returns the same
    text exactly when the longest listed prefix of the resolved
    identifier, followed by [-], occurs nowhere in it; that the
    identifier does not begin with a listed entry followed by [-] is not
    enough, the first occurrence being rewritten wherever it is. *)
Theorem name_resolver_fixed_point (st : state) (n : str) :
  let x := add_group_to_intent_name st n in
  add_group_to_intent_name st x = x
  <-> (forall g, longest_match (INTENT_LIST st) x g -> absent x (g ++ SEP)).
Proof.
  intros x. destruct (has_match_dec (INTENT_LIST st) n) as [Hm|Hu].
  - apply add_group_fixed_iff.
    destruct (add_group_matched_rewrites st n Hm) as [g [(Hin & Hs & _) Hr]].
    exists g. split; [exact Hin|].
    eapply rewrites_first_keeps_prefix; [exact Hs | exact Hr].
  - pose proof (add_group_unmatched st n Hu) as E. fold x in E.
    destruct (mem DEFAULT_GROUP (INTENT_LIST st)) eqn:D.
    + apply add_group_fixed_iff.
      exists DEFAULT_GROUP. split; [apply mem_iff; exact D|].
      rewrite E. apply startswith_app.
    + split.
      * intros _ g (Hin & Hs & _). rewrite E, (Hu g Hin) in Hs. discriminate Hs.
      * intros _. rewrite E. rewrite (add_group_unmatched st n Hu), D.
        reflexivity.
Qed.

Lemma name_resolver_fixed_point_witness :
  add_group_to_intent_name greet_state (lit "greet/hello") = lit "greet/hello"
  /\ ~ (forall g, longest_match (INTENT_LIST single_group_state)
                                (lit "a/ba-c") g ->
                  absent (lit "a/ba-c") (g ++ SEP)).
Proof.
  split.
  - apply (proj2 (name_resolver_fixed_point greet_state (lit "greet-hello"))).
    intros g ([<-|[]] & _). apply contains_false_absent. reflexivity.
  - intros H.
    apply (proj2 (name_resolver_fixed_point single_group_state (lit "a-ba-c")))
      in H.
    vm_compute in H. discriminate H.
Defined.

(** ** Grouping Analyzer *)

Lemma split1_shape (s : str) (sep : char) :
  (split1 s sep = [s] /\ ~ In sep s)
  \/ exists p r, split1 s sep = [p; r] /\ s = p ++ sep :: r /\ ~ In sep p.
Proof.
  induction s as [|c s IH]; simpl.
  - left. split; [reflexivity | tauto].
  - destruct (N.eqb_spec c sep) as [->|Hne].
    + right. exists [], s. repeat split. intros [].
    + destruct IH as [[E Hn]|(p & r & E & Hs & Hn)]; rewrite E.
      * left. split; [reflexivity|]. intros [H|H]; [congruence | tauto].
      * right. exists (c :: p), r. subst s. repeat split.
        intros [H|H]; [congruence | tauto].
Qed.

(** [prefix_of] is the text before the first separator. *)
Lemma prefix_of_some (f p : str) :
  prefix_of f = Some p <->
  exists r, f = p ++ 45%N :: r /\ ~ In 45%N p.
Proof.
  unfold prefix_of.
  destruct (split1_shape f 45%N) as [[E Hn]|(q & r & E & Hs & Hn)]; rewrite E.
  - split; [discriminate|]. intros (r & -> & _). exfalso. apply Hn.
    apply in_or_app. right. left. reflexivity.
  - split.
    + intros H; inversion H; subst q. exists r. split; assumption.
    + intros (r' & Hf & Hn'). f_equal. rewrite Hs in Hf. clear - Hf Hn Hn'.
      revert p Hf Hn'. induction q as [|a q IH]; intros [|b p] Hf Hn'; simpl in *.
      * reflexivity.
      * inversion Hf; subst. exfalso. apply Hn'. left; reflexivity.
      * inversion Hf; subst. exfalso. apply Hn. left; reflexivity.
      * inversion Hf; subst. f_equal. apply IH; tauto.
Qed.

Lemma tally_count (fs : list str) (p : str) :
  tally fs p = count_str p (file_prefixes fs).
Proof.
  unfold tally, count_str, file_prefixes, has_prefix.
  induction (training_files fs) as [|f l IH]; simpl; [reflexivity|].
  destruct (prefix_of f) as [q|]; simpl; [|exact IH].
  destruct (str_eqb p q); simpl; rewrite IH; reflexivity.
Qed.

Lemma tally_step_eq (d : list (str * nat)) (n : nat) (f : str) :
  tally_step (d, n) f
  = if is_usersays f
    then match prefix_of f with
         | Some p => (count_incr d p, n)
         | None => (d, S n)
         end
    else (d, n).
Proof.
  unfold tally_step, prefix_of. destruct (is_usersays f); simpl; [|reflexivity].
  destruct (split1 f 45%N) as [|p [|q r]]; reflexivity.
Qed.

Lemma tally_loop (fs : list str) (d : list (str * nat)) (n : nat) :
  fold_left tally_step fs (d, n)
  = (fold_left count_incr (file_prefixes fs) d, n + unprefixed fs).
Proof.
  revert d n; induction fs as [|f fs IH]; intros d n.
  - simpl. f_equal. unfold unprefixed. simpl. lia.
  - cbn [fold_left]. rewrite tally_step_eq.
    unfold file_prefixes, unprefixed, training_files in *. cbn [filter].
    destruct (is_usersays f) eqn:U; [|apply IH].
    cbn [flat_map filter].
    destruct (prefix_of f) as [p|]; rewrite IH; cbn [app fold_left length];
      f_equal; lia.
Qed.

Lemma get_count_incr (d : list (str * nat)) (k p : str) :
  get (count_incr d k) p = if str_eqb k p then S (get d p) else get d p.
Proof.
  induction d as [|[k' c] d IH]; simpl.
  - reflexivity.
  - destruct (str_eqb k' k) eqn:E; simpl.
    + apply str_eqb_eq in E. subst k'. destruct (str_eqb k p); reflexivity.
    + destruct (str_eqb k' p) eqn:E'; [|exact IH].
      apply str_eqb_eq in E'. subst k'. rewrite (str_eqb_sym k p), E.
      reflexivity.
Qed.

Lemma keys_count_incr (d : list (str * nat)) (k p : str) :
  In p (map fst (count_incr d k)) <-> p = k \/ In p (map fst d).
Proof.
  induction d as [|[k' c] d IH]; simpl.
  - intuition.
  - destruct (str_eqb k' k) eqn:E; simpl.
    + apply str_eqb_eq in E. subst. intuition.
    + rewrite IH. intuition.
Qed.

Lemma well_formed_count_incr (d : list (str * nat)) (k : str) :
  well_formed d -> well_formed (count_incr d k).
Proof.
  intros [Hnd Hpos]. induction d as [|[k' c] d IH]; simpl.
  - split; [repeat constructor; intros [] | repeat constructor].
  - inversion Hnd; subst. inversion Hpos; subst.
    destruct (str_eqb k' k) eqn:E.
    + split; [exact Hnd|]. constructor; [simpl; lia | assumption].
    + destruct (IH H2 H4) as [Hnd' Hpos']. split; simpl.
      * constructor; [|exact Hnd'].
        rewrite keys_count_incr. intros [->|H]; [|tauto].
        rewrite str_eqb_refl in E. discriminate.
      * constructor; assumption.
Qed.

Lemma in_well_formed (d : list (str * nat)) (p : str) (c : nat) :
  well_formed d -> (In (p, c) d <-> get d p = c /\ 0 < c).
Proof.
  intros [Hnd Hpos]. induction d as [|[k c'] d IH]; simpl.
  - split; [tauto | intros [<- H]; lia].
  - inversion Hnd; subst. inversion Hpos; subst. simpl in *.
    destruct (str_eqb k p) eqn:E.
    + apply str_eqb_eq in E. subst k. split.
      * intros [H|H]; [inversion H; subst; split; [reflexivity | assumption]|].
        exfalso. apply H1. apply (in_map fst) in H. exact H.
      * intros [-> _]. left. reflexivity.
    + rewrite <- (IH H2 H4). split; [|tauto].
      intros [H|H]; [|exact H]. inversion H; subst.
      rewrite str_eqb_refl in E. discriminate.
Qed.

Lemma tallied (ps : list str) (d : list (str * nat)) :
  well_formed d ->
  well_formed (fold_left count_incr ps d)
  /\ forall p, get (fold_left count_incr ps d) p = get d p + count_str p ps.
Proof.
  revert d; induction ps as [|k ps IH]; intros d Hwf; simpl.
  - split; [exact Hwf | intros p; unfold count_str; simpl; lia].
  - destruct (IH (count_incr d k) (well_formed_count_incr k Hwf)) as [Hwf' Hget].
    split; [exact Hwf'|]. intros p. rewrite Hget, get_count_incr.
    unfold count_str. simpl.
    destruct (str_eqb k p) eqn:E.
    + apply str_eqb_eq in E. subst. rewrite str_eqb_refl. simpl. lia.
    + rewrite (str_eqb_sym p k), E. reflexivity.
Qed.

Lemma filter_split_length (P Q : str -> bool) (l : list str) :
  length (filter P l)
  = length (filter P (filter Q l))
    + length (filter P (filter (fun x => negb (Q x)) l)).
Proof.
  induction l as [|x l IH]; simpl; [reflexivity|].
  destruct (Q x) eqn:EQ; simpl; destruct (P x); simpl; lia.
Qed.

Lemma filter_same_key (P : str -> bool) (k : str) (l : list str) :
  length (filter P (filter (str_eqb k) l)) = if P k then count_str k l else 0.
Proof.
  unfold count_str. induction l as [|x l IH]; simpl.
  - destruct (P k); reflexivity.
  - destruct (str_eqb k x) eqn:E; [|exact IH].
    apply str_eqb_eq in E. subst x. simpl.
    destruct (P k); simpl; [rewrite IH|]; auto.
Qed.

Lemma count_str_other (k p : str) (l : list str) :
  p <> k ->
  count_str p (filter (fun q => negb (str_eqb k q)) l) = count_str p l.
Proof.
  intros Hne. unfold count_str. induction l as [|x l IH]; simpl; [reflexivity|].
  destruct (str_eqb k x) eqn:E; simpl.
  - apply str_eqb_eq in E. subst x.
    apply str_eqb_neq in Hne. rewrite Hne. exact IH.
  - destruct (str_eqb p x); simpl; rewrite IH; reflexivity.
Qed.

Lemma count_str_pos (p : str) (l : list str) : In p l -> 0 < count_str p l.
Proof.
  unfold count_str. induction l as [|x l IH]; simpl; [tauto|].
  intros [->|H].
  - rewrite str_eqb_refl. simpl. lia.
  - destruct (str_eqb p x); simpl; [lia | apply IH; exact H].
Qed.

(** One dictionary entry of count below two for every file whose prefix
    occurs fewer than two times. *)
Lemma low_counts (d : list (str * nat)) :
  forall ps : list str,
  NoDup (map fst d) ->
  (forall p c, In (p, c) d -> c = count_str p ps /\ 0 < c) ->
  (forall p, In p ps -> In p (map fst d)) ->
  length (filter (fun pc => snd pc <? 2) d)
  = length (filter (fun q => count_str q ps <? 2) ps).
Proof.
  induction d as [|[k c] d IH]; intros ps Hnd Hd Hps.
  - destruct ps as [|p ps]; [reflexivity|].
    destruct (Hps p (or_introl eq_refl)).
  - inversion Hnd as [|? ? Hk Hnd']; subst.
    destruct (Hd k c (or_introl eq_refl)) as [Hc Hpos].
    set (ps' := filter (fun q => negb (str_eqb k q)) ps).
    rewrite (filter_split_length _ (str_eqb k) ps), filter_same_key.
    fold ps'.
    assert (Hrest : length (filter (fun q => count_str q ps <? 2) ps')
                    = length (filter (fun q => count_str q ps' <? 2) ps')).
    { f_equal. apply filter_ext_in. intros q Hq. unfold ps' in *.
      apply filter_In in Hq. destruct Hq as [_ Hq].
      rewrite count_str_other; [reflexivity|].
      intros ->. rewrite str_eqb_refl in Hq. discriminate. }
    rewrite Hrest, <- (IH ps' Hnd').
    + cbn [filter snd]. rewrite <- Hc.
      destruct (Nat.ltb_spec c 2); cbn [length]; lia.
    + intros p c' Hin.
      destruct (Hd p c' (or_intror Hin)) as [E Hp]. split; [|exact Hp].
      unfold ps'. rewrite count_str_other; [exact E|].
      intros ->. apply Hk. apply (in_map fst) in Hin. exact Hin.
    + intros p Hp. unfold ps' in Hp.
      apply filter_In in Hp. destruct Hp as [Hp Hne].
      destruct (Hps p Hp) as [E|H]; [|exact H].
      simpl in E. subst p. rewrite str_eqb_refl in Hne. discriminate.
Qed.

Lemma ungrouped_split (t : str -> nat) (l : list str) :
  length (filter (fun f => match prefix_of f with
                           | None => true
                           | Some q => t q <? 2
                           end) l)
  = length (filter (fun f => match prefix_of f with
                             | None => true
                             | _ => false
                             end) l)
    + length (filter (fun q => t q <? 2)
                (flat_map (fun f => match prefix_of f with
                                    | Some p => [p]
                                    | None => []
                                    end) l)).
Proof.
  induction l as [|f l IH]; simpl; [reflexivity|].
  destruct (prefix_of f) as [q|]; simpl.
  - destruct (t q <? 2); simpl; lia.
  - lia.
Qed.

Lemma ungrouped_eq (fs : list str) :
  ungrouped fs
  = unprefixed fs
    + length (filter (fun q => count_str q (file_prefixes fs) <? 2)
                     (file_prefixes fs)).
Proof.
  unfold ungrouped. rewrite ungrouped_split. fold (unprefixed fs).
  fold (file_prefixes fs). f_equal. f_equal.
  apply filter_ext. intros q. rewrite tally_count. reflexivity.
Qed.

Lemma NoDup_keys_filter (f : str * nat -> bool) (d : list (str * nat)) :
  NoDup (map fst d) -> NoDup (map fst (filter f d)).
Proof.
  induction d as [|x d IH]; simpl; intros H; [constructor|].
  inversion H; subst. destruct (f x); simpl; [|auto].
  constructor; [|auto]. intros Hin. apply H2.
  apply in_map_iff in Hin. destruct Hin as [y [Ey Hy]].
  apply filter_In in Hy. apply in_map_iff. exists y. tauto.
Qed.

(** C5.  The recognised prefixes are exactly those carried by at least
    two training-phrase files, each listed once; the files whose prefix
    occurs fewer than two times count as ungrouped together with the files
    without separator; the default group is added exactly when at least
    two files are ungrouped; and a single group with no ungrouped file
    gives the empty list. *)
Theorem grouping_analyzer_spec (filenames : list str) :
  exists gs,
    NoDup gs
    /\ (forall p, In p gs <-> 2 <= tally filenames p)
    /\ extract_groups filenames
       = if (length gs =? 1) && (ungrouped filenames =? 0) then []
         else if 2 <=? ungrouped filenames then gs ++ [DEFAULT_GROUP]
              else gs.
Proof.
  set (d := fold_left count_incr (file_prefixes filenames) []).
  assert (Hwf0 : well_formed (@nil (str * nat)))
    by (split; constructor).
  destruct (tallied (file_prefixes filenames) Hwf0) as [Hwf Hget].
  fold d in Hwf, Hget. simpl in Hget.
  exists (map fst (filter (fun pc => 2 <=? snd pc) d)).
  split; [apply NoDup_keys_filter; apply Hwf|]. split.
  - intros p. rewrite tally_count, <- Hget, in_map_iff. split.
    + intros [[q c] [E Hin]]. simpl in E. subst q.
      apply filter_In in Hin. destruct Hin as [Hin Hc]. cbn [snd] in Hc.
      apply (in_well_formed p c Hwf) in Hin. destruct Hin as [-> _].
      apply Nat.leb_le. exact Hc.
    + intros H. exists (p, get d p). split; [reflexivity|].
      apply filter_In. split.
      * apply (in_well_formed p (get d p) Hwf). split; [reflexivity | lia].
      * cbn [snd]. apply Nat.leb_le. exact H.
  - unfold extract_groups. rewrite tally_loop. fold d. cbn [plus].
    assert (Hlow : length (filter (fun pc => snd pc <? 2) d)
                   = length (filter
                               (fun q => count_str q (file_prefixes filenames) <? 2)
                               (file_prefixes filenames))).
    { apply low_counts; [apply Hwf | |].
      - intros p c Hin. apply (in_well_formed p c Hwf) in Hin.
        destruct Hin as [<- Hc]. split; [apply Hget | exact Hc].
      - intros p Hp. apply count_str_pos in Hp. rewrite <- Hget in Hp.
        apply in_map_iff. exists (p, get d p). split; [reflexivity|].
        apply (in_well_formed p (get d p) Hwf). split; [reflexivity | exact Hp]. }
    rewrite Hlow, <- ungrouped_eq.
    destruct (Nat.eqb_spec (ungrouped filenames) 0) as [E|E].
    + rewrite E. reflexivity.
    + rewrite !andb_false_r. reflexivity.
Qed.

(** ** The worked example of the Grouping Analyzer *)

(** The names of the example taken literally are intent files, not
    training-phrase files: none is tallied and no group is recognised. *)
Lemma literal_example_listing_has_no_group :
  let listing :=
    map lit ["greet-hello.json"; "greet-hello.json"; "greet-hello.json";
             "greet-bye.json"; "greet-bye.json"; "faq.json"]%string in
  training_files listing = [] /\ extract_groups listing = [].
Proof. vm_compute. split; reflexivity. Qed.

(** C6, amended.  On the training-phrase files
    [greet-hello_usersays_en.json] (three times),
    [greet-bye_usersays_en.json] (twice) and [faq_usersays_en.json] (once)
    the recognised groups are exactly [greet], with one ungrouped file and
    no default group; the resolver then maps [greet-hello] to
    [greet/hello] and leaves [faq] unchanged. *)
Theorem example_grouping :
  extract_groups example_listing = [lit "greet"]
  /\ ungrouped example_listing = 1
  /\ add_group_to_intent_name example_state (lit "greet-hello")
     = lit "greet/hello"
  /\ add_group_to_intent_name example_state (lit "faq") = lit "faq".
Proof. vm_compute. repeat split; reflexivity. Qed.

(** ** Response Normalizer: only the first response is read *)

Lemma get_responses_loop_first (dir1 dir2 : list dir_entry) :
  Forall2 same_first_response dir1 dir2 ->
  forall st rc, get_responses_loop st rc dir1 = get_responses_loop st rc dir2.
Proof.
  induction 1 as [|e1 e2 dir1 dir2 [Hn Hr] _ IH]; intros st rc; simpl.
  - reflexivity.
  - rewrite <- Hn. destruct (is_usersays (fname e1)); [apply IH|].
    unfold first_response in Hr.
    destruct (fdata e1) as [x1|[|r1 rs1]], (fdata e2) as [x2|[|r2 rs2]];
      try discriminate Hr; try reflexivity.
    inversion Hr; subst r2.
    destruct (process_response st rc (fname e1) r1) as [st1 rc1]. apply IH.
Qed.

(** C9.  Two listings whose entries agree on the file name and on the
    first element of [responses] give the same responses section and the
    same contributions to the rules and to the intent list, whatever the
    later responses are; the domain document written from them is the
    same as well. *)
Theorem responses_depend_on_first_response (st : state)
  (dir1 dir2 : list dir_entry) :
  Forall2 same_first_response dir1 dir2 ->
  get_responses st dir1 = get_responses st dir2
  /\ generate_domain st dir1 = generate_domain st dir2.
Proof.
  intros H.
  assert (E : get_responses st dir1 = get_responses st dir2)
    by (apply get_responses_loop_first; exact H).
  split; [exact E|]. unfold generate_domain. rewrite E. reflexivity.
Qed.

Lemma responses_depend_on_first_response_witness :
  let first := [text_message ["Welcome"%string]] in
  let dir1 := [mkEntry (lit "info.json")
                 (Intent [first; [buttons_message [("Visit", "http://x")]%string]])] in
  let dir2 := [mkEntry (lit "info.json") (Intent [first])] in
  get_responses plain_state dir1 = get_responses plain_state dir2
  /\ generate_domain plain_state dir1 = generate_domain plain_state dir2.
Proof.
  intros first dir1 dir2.
  apply (responses_depend_on_first_response plain_state (dir1 := dir1) (dir2 := dir2)).
  constructor; [split; reflexivity | constructor].
Defined.

(** ** Response Normalizer: text and buttons *)


Lemma text_fold (ss : list str) (c : cursor) :
  fold_left
    (fun c example =>
       mkCursor (responses_content c ++ lit "  - text: '"
                 ++ format_text example ++ lit "'" ++ [LF])
                (steps_iter c) true (intent_name c) (response_name c))
    ss c
  = mkCursor (responses_content c ++ concat (map text_step ss))
             (steps_iter c)
             (match ss with [] => after_text c | _ => true end)
             (intent_name c) (response_name c).
Proof.
  revert c; induction ss as [|s ss IH]; intros c.
  - destruct c; simpl. rewrite app_nil_r. reflexivity.
  - cbn [fold_left]. rewrite IH. cbn [responses_content steps_iter after_text
                                      intent_name response_name map concat].
    f_equal.
    + unfold text_step. rewrite <- !app_assoc. reflexivity.
    + destruct ss; reflexivity.
Qed.

Lemma process_message_text (st : state) (c : cursor) (m : message) :
  is_text st m ->
  process_message (st, c) m
  = (st, mkCursor (responses_content c ++ concat (map text_step (speech m)))
                  (steps_iter c)
                  (match speech m with [] => after_text c | _ => true end)
                  (intent_name c) (response_name c)).
Proof.
  intros [Hl Ht]. unfold process_message.
  rewrite Hl, str_eqb_refl, Ht. cbn [negb].
  change (str_eqb (lit "0") (lit "0")) with true.
  change (str_eqb (lit "0") (lit "4")) with false.
  destruct (speech m) as [|s ss] eqn:E.
  - destruct c; simpl. rewrite app_nil_r. reflexivity.
  - cbn [length Nat.eqb negb andb]. rewrite text_fold. reflexivity.
Qed.




Lemma replace_in_file_globals (st : state) (a b : str) :
  LANGUAGE_SETTING (replace_in_file st a b) = LANGUAGE_SETTING st
  /\ INTENT_LIST (replace_in_file st a b) = INTENT_LIST st
  /\ RULES_CONTENT (replace_in_file st a b) = RULES_CONTENT st.
Proof. unfold replace_in_file. destruct (nlu_yml st); repeat split. Qed.





(** ** The intent list *)

Lemma startswith_any_iff (x : str) (l : list str) :
  startswith_any x l = true <-> exists g, In g l /\ startswith x g = true.
Proof. unfold startswith_any. apply existsb_exists. Qed.

Lemma startswith_any_false (x : str) (l : list str) :
  startswith_any x l = false <-> forall g, In g l -> startswith x g = false.
Proof.
  split.
  - intros H g Hg. destruct (startswith x g) eqn:E; [|reflexivity].
    assert (startswith_any x l = true) by (apply startswith_any_iff; eauto).
    congruence.
  - intros H. destruct (startswith_any x l) eqn:E; [|reflexivity].
    apply startswith_any_iff in E. destruct E as [g [Hg Hs]].
    rewrite (H g Hg) in Hs. discriminate.
Qed.

Lemma register_cases (l : list str) (x : str) :
  register l x = l
  \/ (register l x = l ++ [x]
      /\ forall g, In g l -> startswith x g = false).
Proof.
  unfold register. destruct (startswith_any x l) eqn:E; simpl.
  - left. reflexivity.
  - right. split; [reflexivity | apply startswith_any_false; exact E].
Qed.

Lemma register_prefixed (l : list str) (x g : str) :
  In g l -> startswith x g = true -> register l x = l.
Proof.
  intros Hg Hs. unfold register.
  assert (E : startswith_any x l = true) by (apply startswith_any_iff; eauto).
  rewrite E. reflexivity.
Qed.






(** ** Rule Synthesizer *)

(** C3.  On the export [action_export] the intent list ends as [action]
    and [info]; normalisation contributes the rule for [info] only; the
    test that skips covered intents finds the text [action] inside that
    rule, so the rules document holds the rule for [info] and no rule for
    [action], although no rule block has [action] as its trigger. *)
Theorem listed_intent_left_without_rule :
  match main (lit "en") (initial_state (Some nlu_anchor) None None)
             action_export with
  | Some st =>
      INTENT_LIST st = [lit "action"; lit "info"]
      /\ RULES_CONTENT st
         = render_rule (lit "info") [lit "utter_info"; lit "utter_info_1"]
      /\ contains (RULES_CONTENT st) (lit "action") = true
      /\ rules_yml st
         = Some (version_header ++ rules_anchor
                 ++ render_rule (lit "info")
                                [lit "utter_info"; lit "utter_info_1"])
      /\ contains (version_header ++ new_rules st)
                  (lit "- rule: Respond to action") = false
  | None => False
  end.
Proof. vm_compute. repeat split; reflexivity. Qed.

(** When the files of a group named like the default group meet two
    ungrouped files, the group is listed twice and gets two rules. *)
Example default_group_listed_twice :
  let listing :=
    [usersays_name "OTHER-a"; usersays_name "OTHER-b";
     usersays_name "faq"; usersays_name "bye"] in
  extract_groups listing = [DEFAULT_GROUP; DEFAULT_GROUP]
  /\ new_rules (mkState (lit "en") [] (extract_groups listing) [] None None None)
     = rules_anchor
       ++ render_rule DEFAULT_GROUP [lit "utter_OTHER"]
       ++ render_rule DEFAULT_GROUP [lit "utter_OTHER"].
Proof. vm_compute. split; reflexivity. Qed.

(** * Further properties of the code *)

(** ** Text normalisation *)

Lemma replace_char (a b : char) (s : str) :
  replace s [a] [b] None = map (fun c => if N.eqb c a then b else c) s.
Proof.
  unfold replace. induction s as [|c s IH]; [reflexivity|].
  cbn [replace_scan count_left andb startswith map length Nat.sub count_dec].
  rewrite andb_true_r. destruct (N.eqb c a); cbn [app]; rewrite IH; reflexivity.
Qed.

Lemma format_text_map (text : str) :
  format_text text = map normalise_char text.
Proof.
  unfold format_text.
  change (lit "'") with [39%N]. change (lit " ") with [32%N].
  rewrite !replace_char, !map_map. apply map_ext. intros c.
  unfold normalise_char, LDQUOTE, RDQUOTE, DQUOTE, LF.
  destruct (N.eqb_spec c 39) as [->|H39]; [reflexivity|].
  destruct (N.eqb_spec c 8220) as [->|H1]; [reflexivity|].
  destruct (N.eqb_spec c 8221) as [->|H2]; [reflexivity|].
  destruct (N.eqb_spec c 10) as [->|H3]; reflexivity.
Qed.

(** [format_text] works character by character: curly double quotes
    become the plain double quote, a line feed becomes a space, every
    other character (the apostrophe included) is kept; the length of the
    text does not change. *)
Theorem format_text_characterwise (text : str) :
  format_text text = map normalise_char text
  /\ length (format_text text) = length text.
Proof.
  split; [apply format_text_map|].
  rewrite format_text_map. apply length_map.
Qed.

Lemma normalise_char_clean (c : char) :
  normalise_char c <> LF /\ normalise_char c <> LDQUOTE
  /\ normalise_char c <> RDQUOTE.
Proof.
  unfold normalise_char, LDQUOTE, RDQUOTE, DQUOTE, LF.
  destruct (N.eqb_spec c 8220); [repeat split; discriminate|].
  destruct (N.eqb_spec c 8221); [repeat split; discriminate|].
  destruct (N.eqb_spec c 10); [repeat split; discriminate|].
  repeat split; assumption.
Qed.

Lemma normalise_char_fixed (c : char) :
  c <> LF -> c <> LDQUOTE -> c <> RDQUOTE -> normalise_char c = c.
Proof.
  intros H1 H2 H3. unfold normalise_char.
  apply N.eqb_neq in H1, H2, H3. rewrite H1, H2, H3. reflexivity.
Qed.

(** A normalised text holds no line feed and no curly double quote, so a
    text step stays on one line; a text without these characters is
    returned as it is, and normalising twice is normalising once. *)
Theorem format_text_clean (text : str) :
  Forall (fun c => c <> LF /\ c <> LDQUOTE /\ c <> RDQUOTE) (format_text text)
  /\ (Forall (fun c => c <> LF /\ c <> LDQUOTE /\ c <> RDQUOTE) text ->
      format_text text = text)
  /\ format_text (format_text text) = format_text text.
Proof.
  assert (Hclean : forall t,
             Forall (fun c => c <> LF /\ c <> LDQUOTE /\ c <> RDQUOTE)
                    (format_text t)).
  { intros t. rewrite format_text_map.
    apply Forall_forall. intros c Hc. apply in_map_iff in Hc.
    destruct Hc as [d [<- _]]. apply normalise_char_clean. }
  assert (Hfix : forall t,
             Forall (fun c => c <> LF /\ c <> LDQUOTE /\ c <> RDQUOTE) t ->
             format_text t = t).
  { intros t Ht. rewrite format_text_map.
    induction Ht as [|c t (H1 & H2 & H3) _ IH]; [reflexivity|].
    simpl. rewrite IH, normalise_char_fixed by assumption. reflexivity. }
  split; [apply Hclean|]. split; [apply Hfix|].
  apply Hfix. apply Hclean.
Qed.

Lemma format_text_clean_witness :
  format_text (lit "Visit us") = lit "Visit us".
Proof.
  apply (proj1 (proj2 (format_text_clean (lit "Visit us")))).
  repeat constructor; discriminate.
Defined.

(** ** Suffixes and file names *)

Lemma endswith_iff (s suf : str) :
  endswith s suf = true <-> exists a, s = a ++ suf.
Proof.
  unfold endswith. rewrite startswith_iff. split.
  - intros [r E]. exists (rev r).
    rewrite <- (rev_involutive s), E, rev_app_distr, rev_involutive.
    reflexivity.
  - intros [a ->]. exists (rev a). apply rev_app_distr.
Qed.

(** [remove_substring] takes a non-empty suffix off the end and gives the
    rest back; a text that does not end with the suffix is returned as it
    is; with the empty suffix the whole text is lost. *)
Theorem remove_substring_spec (s suf : str) :
  (suf <> [] -> remove_substring (s ++ suf) suf = s)
  /\ (endswith s suf = false -> remove_substring s suf = s)
  /\ remove_substring s [] = [].
Proof.
  split; [|split].
  - intros Hne. unfold remove_substring.
    assert (E : endswith (s ++ suf) suf = true)
      by (apply endswith_iff; exists s; reflexivity).
    rewrite E. apply slice_to_neg_app. destruct suf; [congruence | simpl; lia].
  - intros H. unfold remove_substring. rewrite H. reflexivity.
  - unfold remove_substring.
    assert (E : endswith s [] = true)
      by (apply endswith_iff; exists s; symmetry; apply app_nil_r).
    rewrite E. reflexivity.
Qed.

Lemma remove_substring_spec_witness :
  remove_substring (lit "faq" ++ lit ".json") (lit ".json") = lit "faq"
  /\ remove_substring (lit "faq.yml") (lit ".json") = lit "faq.yml".
Proof.
  split.
  - apply (proj1 (remove_substring_spec (lit "faq") (lit ".json"))).
    discriminate.
  - apply (proj1 (proj2 (remove_substring_spec (lit "faq.yml") (lit ".json")))).
    reflexivity.
Defined.

Lemma is_usersays_eq (filename : str) :
  is_usersays filename
  = (startswith filename (lit "_usersays_") && usersays_tail (skipn 10 filename))
    || match filename with
       | [] => false
       | _ :: rest => is_usersays rest
       end.
Proof. destruct filename; reflexivity. Qed.

Lemma is_usersays_app (a s : str) :
  is_usersays s = true -> is_usersays (a ++ s) = true.
Proof.
  intros H. induction a as [|c a IH]; [exact H|].
  simpl app. rewrite is_usersays_eq. cbv beta iota. rewrite IH.
  apply orb_true_r.
Qed.

Lemma no_newline_app (a b : str) :
  no_newline (a ++ b) = no_newline a && no_newline b.
Proof. apply forallb_app. Qed.

Lemma is_usersays_marker (l : str) :
  no_newline l = true ->
  is_usersays (lit "_usersays_" ++ l ++ lit ".json") = true.
Proof.
  intros Hl. rewrite is_usersays_eq, startswith_app.
  change (skipn 10 (lit "_usersays_" ++ l ++ lit ".json"))
    with (l ++ lit ".json").
  unfold usersays_tail. rewrite no_newline_app, Hl.
  assert (E : endswith (l ++ lit ".json") (lit ".json") = true)
    by (apply endswith_iff; exists l; reflexivity).
  rewrite E. reflexivity.
Qed.

Lemma is_usersays_contains (filename : str) :
  is_usersays filename = true ->
  contains filename (lit "_usersays_") = true.
Proof.
  unfold contains. induction filename as [|c f IH]; rewrite is_usersays_eq.
  - simpl. discriminate.
  - rewrite find_nat_eq.
    destruct (startswith (c :: f) (lit "_usersays_")); [reflexivity|].
    cbn [andb orb]. intros H. specialize (IH H).
    destruct (find_nat f (lit "_usersays_")); [reflexivity | discriminate].
Qed.

(** Every file [generate_nlu] reads as training phrases (its name ends
    with [_usersays_<language>.json], the language holding no line feed)
    matches the usersays pattern, so [get_responses] and [extract_groups]
    treat it as a training-phrase file too; and a name without
    [_usersays_] is never taken for one. *)
Theorem training_files_recognised (st : state) (filename : str) :
  (no_newline (LANGUAGE_SETTING st) = true ->
   endswith filename (usersays_suffix st) = true ->
   is_usersays filename = true)
  /\ (contains filename (lit "_usersays_") = false ->
      is_usersays filename = false).
Proof.
  split.
  - intros Hl He. apply endswith_iff in He. destruct He as [a ->].
    apply is_usersays_app. unfold usersays_suffix.
    apply is_usersays_marker. exact Hl.
  - intros H. destruct (is_usersays filename) eqn:E; [|reflexivity].
    apply is_usersays_contains in E. congruence.
Qed.

Lemma training_files_recognised_witness :
  is_usersays (usersays_name "greet-hello") = true
  /\ is_usersays (lit "greet-hello.json") = false.
Proof.
  split.
  - apply (proj1 (training_files_recognised plain_state
                    (usersays_name "greet-hello"))); reflexivity.
  - apply (proj2 (training_files_recognised plain_state
                    (lit "greet-hello.json"))). reflexivity.
Defined.

(** ** Splitting and renaming *)

Lemma split_unique (c : char) (p p' r r' : str) :
  p ++ c :: r = p' ++ c :: r' -> ~ In c p -> ~ In c p' -> p = p' /\ r = r'.
Proof.
  revert p'; induction p as [|a p IH]; intros [|b p'] E Hp Hp'; simpl in *.
  - inversion E. split; reflexivity.
  - inversion E; subst. exfalso. apply Hp'. left; reflexivity.
  - inversion E; subst. exfalso. apply Hp. left; reflexivity.
  - inversion E; subst. destruct (IH p' H1) as [-> ->]; [tauto | tauto |].
    split; reflexivity.
Qed.

Lemma last_split1_absent (s : str) (sep : char) :
  ~ In sep s -> last (split1 s sep) [] = s.
Proof.
  intros H. destruct (split1_shape s sep) as [[E _]|(p & r & E & Hs & Hn)];
    rewrite E; [reflexivity|].
  exfalso. apply H. rewrite Hs. apply in_or_app. right. left. reflexivity.
Qed.

Lemma last_split1_present (p r : str) (sep : char) :
  ~ In sep p -> last (split1 (p ++ sep :: r) sep) [] = r.
Proof.
  intros H.
  destruct (split1_shape (p ++ sep :: r) sep)
    as [[E Hn]|(p' & r' & E & Hs & Hn)]; rewrite E.
  - exfalso. apply Hn. apply in_or_app. right. left. reflexivity.
  - destruct (split_unique _ _ _ _ _ Hs H Hn) as [_ ->]. reflexivity.
Qed.

(** [rename_intent] returns the text after the first [/] of the name, and
    the name itself when it holds none; in particular it takes the default
    group off an identifier the resolver put it on. *)
Theorem rename_intent_short_name (st : state) :
  (forall name, ~ In 47%N name -> snd (rename_intent st name) = name)
  /\ (forall g rest, ~ In 47%N g ->
        snd (rename_intent st (g ++ NS ++ rest)) = rest)
  /\ (forall name,
        snd (rename_intent st (DEFAULT_GROUP ++ NS ++ name)) = name).
Proof.
  split; [|split].
  - intros name H. unfold rename_intent. cbn [snd].
    apply last_split1_absent. exact H.
  - intros g rest H. unfold rename_intent. cbn [snd].
    apply (@last_split1_present g rest 47%N H).
  - intros name. unfold rename_intent. cbn [snd].
    apply (@last_split1_present DEFAULT_GROUP name 47%N).
    vm_compute. intuition discriminate.
Qed.

Lemma rename_intent_short_name_witness :
  snd (rename_intent plain_state (lit "faq")) = lit "faq"
  /\ snd (rename_intent plain_state (lit "greet" ++ NS ++ lit "hello/again"))
     = lit "hello/again".
Proof.
  split.
  - apply (proj1 (rename_intent_short_name plain_state)).
    vm_compute. intuition discriminate.
  - apply (proj1 (proj2 (rename_intent_short_name plain_state))).
    vm_compute. intuition discriminate.
Defined.

(** ** Groups and their members *)

(** The group the resolver works with is determined by the name: two
    listed prefixes of maximal length are the same text, so whichever
    longest listed prefix of the name one takes, the resolver rewrites the
    first occurrence of that prefix followed by [-]. *)
Theorem longest_match_unique (st : state) (name g : str) :
  longest_match (INTENT_LIST st) name g ->
  (forall h, longest_match (INTENT_LIST st) name h -> g = h)
  /\ add_group_to_intent_name st name
     = replace name (g ++ SEP) (g ++ NS) (Some 1).
Proof.
  intros Hg. split; [intros h; apply longest_match_same; exact Hg|].
  destruct (add_group_matched st name) as [g' [Hg' E]].
  - exists g. destruct Hg as (Hin & Hs & _). split; assumption.
  - rewrite (longest_match_same Hg Hg'). exact E.
Qed.

Lemma longest_match_unique_witness :
  add_group_to_intent_name
    (mkState (lit "en") [] [lit "gr"; lit "greet"; lit "greet"] [] None None None)
    (lit "greet-hello")
  = replace (lit "greet-hello") (lit "greet" ++ SEP) (lit "greet" ++ NS) (Some 1).
Proof.
  apply (@longest_match_unique
           (mkState (lit "en") [] [lit "gr"; lit "greet"; lit "greet"] []
                    None None None)
           (lit "greet-hello") (lit "greet")).
  split; [right; left; reflexivity|]. split; [reflexivity|].
  intros k [<-|[<-|[<-|[]]]] _; simpl; lia.
Defined.

Lemma longer_prefix_holds_separator (g rest g' : str) (c : char) :
  startswith (g ++ c :: rest) g' = true -> length g < length g' -> In c g'.
Proof.
  intros Hs Hl. apply startswith_firstn in Hs. rewrite <- Hs.
  rewrite firstn_app, firstn_all2 by lia.
  apply in_or_app. right.
  destruct (length g' - length g) as [|n] eqn:E; [lia|]. left. reflexivity.
Qed.

(** When no listed identifier holds the separator, a name made of a
    listed group, the separator and a rest resolves to the group, [/] and
    the rest. *)
Lemma resolve_group_member (st : state) (g rest : str) :
  (forall h, In h (INTENT_LIST st) -> ~ In 45%N h) ->
  In g (INTENT_LIST st) ->
  add_group_to_intent_name st (g ++ SEP ++ rest) = g ++ NS ++ rest.
Proof.
  intros Hsep Hg.
  assert (Hs : startswith (g ++ SEP ++ rest) g = true) by apply startswith_app.
  destruct (add_group_matched st (g ++ SEP ++ rest))
    as [g' [(Hin & Hs' & Hmax) E]]; [exists g; auto|].
  assert (g' = g) as ->.
  { apply (prefix_same_length (g ++ SEP ++ rest)); try assumption.
    specialize (Hmax g Hg Hs).
    destruct (Nat.eq_dec (length g') (length g)) as [|Hne]; [assumption|].
    exfalso. apply (Hsep g' Hin).
    apply (@longer_prefix_holds_separator g rest g' 45%N); [exact Hs' | lia]. }
  rewrite E. unfold replace.
  destruct (g ++ SEP) as [|a old] eqn:Eo; [destruct g; discriminate|].
  rewrite <- Eo.
  replace (g ++ SEP ++ rest) with ([] ++ (g ++ SEP) ++ rest)
    by (simpl; rewrite <- app_assoc; reflexivity).
  rewrite replace_scan_first.
  - simpl. rewrite <- app_assoc. reflexivity.
  - rewrite Eo. discriminate.
  - split; [exists rest; reflexivity|]. simpl. intros k Hk. lia.
Qed.

(** The shape of the result of [extract_groups], for the facts below. *)
Lemma extract_groups_shape (filenames : list str) :
  exists gs,
    NoDup gs
    /\ (forall p, In p gs <-> 2 <= tally filenames p)
    /\ extract_groups filenames
       = if (length gs =? 1) && (ungrouped filenames =? 0) then []
         else if 2 <=? ungrouped filenames then gs ++ [DEFAULT_GROUP]
              else gs.
Proof.
  set (d := fold_left count_incr (file_prefixes filenames) []).
  assert (Hwf0 : well_formed (@nil (str * nat))) by (split; constructor).
  destruct (tallied (file_prefixes filenames) Hwf0) as [Hwf Hget].
  fold d in Hwf, Hget. simpl in Hget.
  exists (map fst (filter (fun pc => 2 <=? snd pc) d)).
  split; [apply NoDup_keys_filter; apply Hwf|]. split.
  - intros p. rewrite tally_count, <- Hget, in_map_iff. split.
    + intros [[q c] [E Hin]]. simpl in E. subst q.
      apply filter_In in Hin. destruct Hin as [Hin Hc]. cbn [snd] in Hc.
      apply (in_well_formed p c Hwf) in Hin. destruct Hin as [-> _].
      apply Nat.leb_le. exact Hc.
    + intros H. exists (p, get d p). split; [reflexivity|].
      apply filter_In. split.
      * apply (in_well_formed p (get d p) Hwf). split; [reflexivity | lia].
      * cbn [snd]. apply Nat.leb_le. exact H.
  - unfold extract_groups. rewrite tally_loop. fold d. cbn [plus].
    rewrite (low_counts d (file_prefixes filenames)), <- ungrouped_eq.
    + destruct (Nat.eqb_spec (ungrouped filenames) 0) as [E|E].
      * rewrite E. reflexivity.
      * rewrite !andb_false_r. reflexivity.
    + apply Hwf.
    + intros p c Hin. apply (in_well_formed p c Hwf) in Hin.
      destruct Hin as [<- Hc]. split; [apply Hget | exact Hc].
    + intros p Hp. apply count_str_pos in Hp. rewrite <- Hget in Hp.
      apply in_map_iff. exists (p, get d p). split; [reflexivity|].
      apply (in_well_formed p (get d p) Hwf). split; [reflexivity | exact Hp].
Qed.

Lemma extract_groups_member (filenames : list str) (g : str) :
  In g (extract_groups filenames) ->
  g = DEFAULT_GROUP \/ 2 <= tally filenames g.
Proof.
  destruct (extract_groups_shape filenames) as (gs & _ & Hgs & ->).
  destruct ((length gs =? 1) && (ungrouped filenames =? 0)); [intros []|].
  destruct (2 <=? ungrouped filenames).
  - intros H. apply in_app_or in H. destruct H as [H|[<-|[]]].
    + right. apply Hgs. exact H.
    + left. reflexivity.
  - intros H. right. apply Hgs. exact H.
Qed.

Lemma tally_file (filenames : list str) (p : str) :
  0 < tally filenames p ->
  exists f, In f filenames /\ is_usersays f = true /\ prefix_of f = Some p.
Proof.
  unfold tally, training_files.
  destruct (filter (has_prefix p) (filter is_usersays filenames)) as [|f l] eqn:E.
  - simpl. lia.
  - intros _. assert (H : In f (filter (has_prefix p) (filter is_usersays filenames)))
      by (rewrite E; left; reflexivity).
    apply filter_In in H. destruct H as [H Hp]. apply filter_In in H.
    destruct H as [Hin Hu]. exists f. repeat split; try assumption.
    unfold has_prefix in Hp. destruct (prefix_of f) as [q|]; [|discriminate].
    apply str_eqb_eq in Hp. subst. reflexivity.
Qed.

Lemma extract_groups_origin (filenames : list str) (g : str) :
  In g (extract_groups filenames) ->
  ~ In 45%N g
  /\ (g = DEFAULT_GROUP
      \/ exists f rest, In f filenames /\ is_usersays f = true
                        /\ f = g ++ SEP ++ rest).
Proof.
  intros H. destruct (extract_groups_member _ _ H) as [->|Ht].
  - split; [vm_compute; intuition discriminate | left; reflexivity].
  - destruct (@tally_file filenames g) as (f & Hin & Hu & Hp); [lia|].
    apply prefix_of_some in Hp. destruct Hp as (rest & Hf & Hn).
    split; [exact Hn|]. right. exists f, rest. repeat split; assumption.
Qed.

(** Every group [extract_groups] returns is the default group or the
    text before the first [-] of a training-phrase file of the listing;
    no group holds the separator. *)
Theorem groups_hold_no_separator (filenames : list str) (g : str) :
  In g (extract_groups filenames) ->
  ~ In 45%N g
  /\ (g = DEFAULT_GROUP
      \/ exists f rest, In f filenames /\ is_usersays f = true
                        /\ f = g ++ SEP ++ rest).
Proof. apply extract_groups_origin. Qed.

Lemma groups_hold_no_separator_witness :
  ~ In 45%N (lit "greet").
Proof.
  apply (proj1 (@groups_hold_no_separator example_listing (lit "greet")
                  (or_introl eq_refl))).
Defined.

(** Over the groups [extract_groups] returns, every raw identifier made
    of a group, [-] and a rest is resolved to that group, [/] and the
    rest: no other listed group can take its place. *)
Theorem group_members_are_namespaced (st : state) (filenames : list str)
  (g rest : str) :
  INTENT_LIST st = extract_groups filenames ->
  In g (extract_groups filenames) ->
  add_group_to_intent_name st (g ++ SEP ++ rest) = g ++ NS ++ rest.
Proof.
  intros E Hg. apply resolve_group_member.
  - intros h Hh. rewrite E in Hh.
    apply (proj1 (extract_groups_origin filenames h Hh)).
  - rewrite E. exact Hg.
Qed.

Lemma group_members_are_namespaced_witness :
  add_group_to_intent_name example_state (lit "greet" ++ SEP ++ lit "hello")
  = lit "greet" ++ NS ++ lit "hello".
Proof.
  exact (@group_members_are_namespaced example_state example_listing
           (lit "greet") (lit "hello") eq_refl (or_introl eq_refl)).
Defined.

(** ** Response normalisation: what one response contributes *)

Lemma process_message_foreign (st : state) (c : cursor) (m : message) :
  str_eqb (lang m) (LANGUAGE_SETTING st) = false ->
  process_message (st, c) m = (st, c).
Proof. intros H. unfold process_message. rewrite H. reflexivity. Qed.

Lemma process_plain_messages (st : state) (msgs : list message) :
  Forall (fun m => lang m <> LANGUAGE_SETTING st \/ mtype m = lit "0") msgs ->
  forall c, exists a,
    fold_left process_message msgs (st, c)
    = (st,
       mkCursor
         (responses_content c
          ++ concat (map text_step
                       (flat_map speech
                          (filter (fun m => str_eqb (lang m) (LANGUAGE_SETTING st))
                                  msgs))))
         (steps_iter c) a (intent_name c) (response_name c)).
Proof.
  induction 1 as [|m msgs Hm _ IH]; intros c.
  - exists (after_text c). destruct c; simpl. rewrite app_nil_r. reflexivity.
  - cbn [fold_left filter].
    destruct (str_eqb (lang m) (LANGUAGE_SETTING st)) eqn:El.
    + assert (Ht : is_text st m).
      { split; [apply str_eqb_eq; exact El|].
        destruct Hm as [Hm|Hm]; [|exact Hm].
        apply str_eqb_eq in El. congruence. }
      rewrite (process_message_text c Ht).
      match goal with
      | |- context [fold_left process_message msgs (st, ?c1)] =>
          destruct (IH c1) as [a E]
      end.
      exists a. rewrite E.
      cbn [responses_content steps_iter intent_name response_name flat_map].
      rewrite map_app, concat_app, app_assoc. reflexivity.
    + rewrite (@process_message_foreign st c m El). apply IH.
Qed.

(** A response made of plain-text messages and of messages in other
    languages changes nothing in the state (no rule, no registration, no
    renaming in the corpus): it adds the block header of the intent and
    one text step per string of the messages in the configured language,
    in order. *)
Theorem plain_text_response (st : state) (rc file : str)
  (msgs : list message) :
  Forall (fun m => lang m <> LANGUAGE_SETTING st \/ mtype m = lit "0") msgs ->
  process_response st rc file msgs
  = (st,
     rc ++ block_header (lit "utter_" ++ add_group_to_intent_name st
                           (remove_substring file (lit ".json")))
        ++ concat (map text_step
                     (flat_map speech
                        (filter (fun m => str_eqb (lang m) (LANGUAGE_SETTING st))
                                msgs)))).
Proof.
  intros H. unfold process_response.
  match goal with
  | |- context [fold_left process_message msgs (st, ?c0)] =>
      destruct (@process_plain_messages st msgs H c0) as [a E]
  end.
  rewrite E. cbn [responses_content]. unfold block_header.
  rewrite <- !app_assoc. reflexivity.
Qed.

Lemma plain_text_response_witness :
  process_response plain_state [] (lit "faq.json")
                   [foreign_message; text_message ["See the manual"%string]]
  = (plain_state,
     block_header (lit "utter_faq") ++ text_step (lit "See the manual")).
Proof.
  apply (@plain_text_response plain_state [] (lit "faq.json")
           [foreign_message; text_message ["See the manual"%string]]).
  constructor; [left; discriminate|].
  constructor; [right; reflexivity | constructor].
Defined.

Lemma rule_invariant_cursor (name r0 : str) (l0 : list str) (st : state)
  (c c' : cursor) :
  steps_iter c' = steps_iter c -> intent_name c' = intent_name c ->
  response_name c' = response_name c ->
  rule_invariant name r0 l0 (st, c) -> rule_invariant name r0 l0 (st, c').
Proof.
  intros Es Ei Er. unfold rule_invariant. rewrite Es, Ei, Er. tauto.
Qed.

Lemma render_rule_more (intent : str) (actions : list str) (a : str) :
  render_rule intent actions ++ lit "  - action: " ++ a ++ [LF]
  = render_rule intent (actions ++ [a]).
Proof.
  unfold render_rule. rewrite map_app, concat_app. cbn [map concat].
  rewrite app_nil_r, <- !app_assoc. reflexivity.
Qed.

Lemma process_buttons_rule_invariant (name r0 : str) (l0 : list str)
  (st : state) (bs : list button) (c : cursor) :
  rule_invariant name r0 l0 (st, c) ->
  rule_invariant name r0 l0 (process_buttons st bs c).
Proof.
  intros H. unfold process_buttons.
  destruct (after_text c).
  - revert H. apply rule_invariant_cursor; reflexivity.
  - destruct H as [(Es & Ei & Er & Hr & Hl)|(k & Es & Er & Hr & Hl)];
      rewrite Es; cbn [Nat.eqb].
    + right. exists 0. rewrite Ei. unfold rename_intent, rename_response.
      set (short := last (split1 name 47%N) []).
      set (st1 := set_INTENT_LIST st (register (INTENT_LIST st) short)).
      destruct (replace_in_file_globals st1 name short) as (_ & Hi & Hrc).
      cbn [steps_iter response_name RULES_CONTENT INTENT_LIST
           set_RULES_CONTENT].
      rewrite Hi, Hrc. subst st1. cbn [RULES_CONTENT INTENT_LIST set_INTENT_LIST].
      rewrite Hr, Hl. repeat split.
      unfold create_new_rule, rule_text, render_rule, sub_block.
      cbn [seq map concat]. rewrite <- !app_assoc. reflexivity.
    + right. exists (S k).
      cbn [steps_iter response_name RULES_CONTENT INTENT_LIST
           set_RULES_CONTENT].
      rewrite Er, Hr, Hl. repeat split.
      rewrite <- app_assoc.
      replace (lit "  - action: " ++ (lit "utter_" ++ last (split1 name 47%N) [])
               ++ lit "_" ++ str_of_nat (S (S k)) ++ [LF])
        with (lit "  - action: "
              ++ sub_block (lit "utter_" ++ last (split1 name 47%N) []) (S (S k))
              ++ [LF])
        by (unfold sub_block; rewrite <- !app_assoc; reflexivity).
      rewrite render_rule_more. f_equal. f_equal.
      change (?x :: map ?f ?l ++ [?y]) with (x :: (map f l ++ [y])).
      f_equal. rewrite (seq_S (S k) 1), map_app. reflexivity.
Qed.

Lemma process_message_rule_invariant (name r0 : str) (l0 : list str)
  (acc : state * cursor) (m : message) :
  rule_invariant name r0 l0 acc ->
  rule_invariant name r0 l0 (process_message acc m).
Proof.
  destruct acc as [st c]. intros H. unfold process_message.
  destruct (negb (str_eqb (lang m) (LANGUAGE_SETTING st))); [exact H|].
  destruct (str_eqb (mtype m) (lit "0") && negb (length (speech m) =? 0)).
  { rewrite text_fold. revert H. apply rule_invariant_cursor; reflexivity. }
  destruct (str_eqb (mtype m) (lit "4")); [|exact H].
  assert (Hb : rule_invariant name r0 l0
                 match buttons (payload m) with
                 | Some bs => process_buttons st bs c
                 | None => (st, c)
                 end).
  { destruct (buttons (payload m)); [|exact H].
    apply process_buttons_rule_invariant. exact H. }
  destruct (match buttons (payload m) with
            | Some bs => process_buttons st bs c
            | None => (st, c)
            end) as [st1 c1].
  destruct (images (payload m)); [|exact Hb].
  revert Hb. apply rule_invariant_cursor; reflexivity.
Qed.

(** Whatever the messages of a response are, normalising it either leaves
    the rules text and the intent list as they were, or registers the
    short name of the intent and appends exactly one rule for it, whose
    actions are the base response followed by the sub-blocks numbered
    from 1 upwards, in order. *)
Theorem response_contributes_one_rule (st : state) (rc file : str)
  (msgs : list message) :
  let name :=
    add_group_to_intent_name st (remove_substring file (lit ".json")) in
  let short := last (split1 name 47%N) [] in
  let resp := lit "utter_" ++ short in
  let st' := fst (process_response st rc file msgs) in
  (RULES_CONTENT st' = RULES_CONTENT st /\ INTENT_LIST st' = INTENT_LIST st)
  \/ (exists k,
         RULES_CONTENT st'
         = RULES_CONTENT st
           ++ render_rule short (resp :: map (sub_block resp) (seq 1 (S k)))
         /\ INTENT_LIST st' = register (INTENT_LIST st) short).
Proof.
  intros name short resp. unfold process_response. fold name.
  set (c0 := mkCursor _ 0 false name (lit "utter_" ++ name)).
  assert (H : rule_invariant name (RULES_CONTENT st) (INTENT_LIST st)
                (fold_left process_message msgs (st, c0))).
  { apply fold_left_preserves.
    - intros a m. apply process_message_rule_invariant.
    - left. repeat split. }
  destruct (fold_left process_message msgs (st, c0)) as [st1 c1].
  cbn [fst]. destruct H as [(_ & _ & _ & Hr & Hl)|(k & _ & _ & Hr & Hl)].
  - left. split; assumption.
  - right. exists k. split; assumption.
Qed.

(** ** Response normalisation: what the state keeps *)

Lemma grows_refl (st : state) : grows st st.
Proof.
  split; [exists []; symmetry; apply app_nil_r|].
  split; [exists []; symmetry; apply app_nil_r | apply same_frame_refl].
Qed.

Lemma grows_trans (a b c : state) : grows a b -> grows b c -> grows a c.
Proof.
  intros ([r1 E1] & [l1 F1] & S1) ([r2 E2] & [l2 F2] & S2).
  split; [exists (r1 ++ r2); rewrite E2, E1, app_assoc; reflexivity|].
  split; [exists (l1 ++ l2); rewrite F2, F1, app_assoc; reflexivity|].
  eapply same_frame_trans; eassumption.
Qed.

Lemma process_buttons_grows (st : state) (bs : list button) (c : cursor) :
  grows st (fst (process_buttons st bs c)).
Proof.
  pose proof (process_buttons_frame st bs c) as Hf.
  split; [|split; [|exact Hf]]; clear Hf; unfold process_buttons;
    (destruct (after_text c); [exists []; symmetry; apply app_nil_r|]);
    destruct (steps_iter c =? 0); unfold rename_intent, rename_response.
  - set (short := last (split1 (intent_name c) 47%N) []).
    destruct (replace_in_file_globals
                (set_INTENT_LIST st (register (INTENT_LIST st) short))
                (intent_name c) short) as (_ & _ & Hr).
    cbn [fst RULES_CONTENT set_RULES_CONTENT]. rewrite Hr.
    cbn [RULES_CONTENT set_INTENT_LIST]. unfold create_new_rule.
    eexists. rewrite <- app_assoc. reflexivity.
  - cbn [fst RULES_CONTENT set_RULES_CONTENT]. eexists. reflexivity.
  - set (short := last (split1 (intent_name c) 47%N) []).
    destruct (replace_in_file_globals
                (set_INTENT_LIST st (register (INTENT_LIST st) short))
                (intent_name c) short) as (_ & Hi & _).
    cbn [fst INTENT_LIST set_RULES_CONTENT]. rewrite Hi.
    cbn [INTENT_LIST set_INTENT_LIST].
    destruct (register_cases (INTENT_LIST st) short) as [->|[-> _]].
    + exists []. symmetry. apply app_nil_r.
    + eexists. reflexivity.
  - cbn [fst INTENT_LIST set_RULES_CONTENT]. exists []. symmetry.
    apply app_nil_r.
Qed.

Lemma process_message_grows (acc : state * cursor) (m : message) :
  grows (fst acc) (fst (process_message acc m)).
Proof.
  destruct acc as [st c]; unfold process_message; cbn [fst].
  destruct (negb (str_eqb (lang m) (LANGUAGE_SETTING st))); [apply grows_refl|].
  destruct (str_eqb (mtype m) (lit "0") && negb (length (speech m) =? 0));
    [apply grows_refl|].
  destruct (str_eqb (mtype m) (lit "4")); [|apply grows_refl].
  destruct (buttons (payload m)) as [bs|].
  - pose proof (process_buttons_grows st bs c) as H.
    destruct (process_buttons st bs c) as [st1 c1]; cbn [fst] in *.
    destruct (images (payload m)); exact H.
  - destruct (images (payload m)); apply grows_refl.
Qed.

Lemma process_response_grows (st : state) (rc file : str)
  (response : list message) :
  grows st (fst (process_response st rc file response)).
Proof.
  unfold process_response.
  set (c0 := mkCursor _ _ _ _ _).
  assert (H : grows st (fst (fold_left process_message response (st, c0)))).
  { apply (fold_left_preserves (fun acc => grows st (fst acc))).
    - intros a x Ha. eapply grows_trans; [exact Ha|].
      apply process_message_grows.
    - apply grows_refl. }
  destruct (fold_left process_message response (st, c0)); exact H.
Qed.

(** [get_responses] only appends to the rules text and to the intent
    list, whatever the export holds and whether it ends normally or not;
    it never touches the language, the entity list, the domain document
    or the rules document. *)
Theorem normalisation_only_appends (st : state) (dir : list dir_entry) :
  let st' := fst (get_responses st dir) in
  (exists r, RULES_CONTENT st' = RULES_CONTENT st ++ r)
  /\ (exists l, INTENT_LIST st' = INTENT_LIST st ++ l)
  /\ LANGUAGE_SETTING st' = LANGUAGE_SETTING st
  /\ ENTITY_LIST st' = ENTITY_LIST st
  /\ domain_yml st' = domain_yml st
  /\ rules_yml st' = rules_yml st.
Proof.
  unfold get_responses. generalize (lit "responses:" ++ [LF]) as rc.
  assert (H : forall rc, grows st (fst (get_responses_loop st rc dir))).
  { revert st; induction dir as [|e dir IH]; intros st rc; simpl.
    - apply grows_refl.
    - destruct (is_usersays (fname e)); [apply IH|].
      destruct (fdata e) as [ex|[|r rs]]; try apply grows_refl.
      pose proof (process_response_grows st rc (fname e) r) as Hr.
      destruct (process_response st rc (fname e) r) as [st1 rc1].
      eapply grows_trans; [exact Hr | apply IH]. }
  intros rc. destruct (H rc) as (Hr & Hl & Hf). exact (conj Hr (conj Hl Hf)).
Qed.

(** ** Domain generation: when it is abandoned *)

Lemma get_responses_loop_none (dir : list dir_entry) (st : state) (rc : str) :
  snd (get_responses_loop st rc dir) = None <->
  exists e, In e dir /\ is_usersays (fname e) = false
            /\ first_response e = None.
Proof.
  revert st rc; induction dir as [|e dir IH]; intros st rc; simpl.
  - split; [discriminate | intros (e & [] & _)].
  - destruct (is_usersays (fname e)) eqn:U.
    + rewrite IH. split.
      * intros (x & Hx & H). exists x. split; [right; exact Hx | exact H].
      * intros (x & [<-|Hx] & Hu & H); [congruence|].
        exists x. split; [exact Hx | split; assumption].
    + destruct (first_response e) as [r|] eqn:F; unfold first_response in F.
      * destruct (fdata e) as [ex|[|r' rs]] eqn:D; try discriminate F.
        destruct (process_response st rc (fname e) r') as [st1 rc1].
        rewrite IH. split.
        -- intros (x & Hx & H). exists x. split; [right; exact Hx | exact H].
        -- intros (x & [<-|Hx] & Hu & H).
           ++ unfold first_response in H. rewrite D in H. discriminate H.
           ++ exists x. split; [exact Hx | split; assumption].
      * assert (E : snd match fdata e with
                        | Intent (response :: _) =>
                            let (st0, rc0) :=
                              process_response st rc (fname e) response in
                            get_responses_loop st0 rc0 dir
                        | _ => (st, None)
                        end = None).
        { destruct (fdata e) as [ex|[|r' rs]]; try reflexivity. discriminate F. }
        rewrite E. split; [|reflexivity].
        intros _. exists e. split; [left; reflexivity|]. split; [exact U|].
        unfold first_response. exact F.
Qed.

(** [get_responses] fails exactly when some intent file of the listing
    has no first response; the domain document is then left as it was
    (no file is created either). *)
Theorem domain_generation_abandoned (st : state) (dir : list dir_entry) :
  (snd (get_responses st dir) = None <->
   exists e, In e dir /\ is_usersays (fname e) = false
             /\ first_response e = None)
  /\ (snd (get_responses st dir) = None ->
      domain_yml (generate_domain st dir) = domain_yml st).
Proof.
  split; [apply get_responses_loop_none|].
  intros H. unfold generate_domain.
  pose proof (get_responses_frame st dir) as (_ & _ & Hd & _).
  destruct (get_responses st dir) as [st1 [rc|]]; [discriminate H|].
  exact Hd.
Qed.

Lemma domain_generation_abandoned_witness :
  let dir := [mkEntry (lit "faq.json") (Intent [])] in
  snd (get_responses unanchored_state dir) = None
  /\ domain_yml (generate_domain unanchored_state dir) = Some hand_written.
Proof.
  intros dir.
  assert (H : snd (get_responses unanchored_state dir) = None).
  { apply (proj1 (domain_generation_abandoned unanchored_state dir)).
    exists (mkEntry (lit "faq.json") (Intent [])).
    split; [left; reflexivity | split; reflexivity]. }
  split; [exact H|].
  exact (proj2 (domain_generation_abandoned unanchored_state dir) H).
Defined.

Lemma has_text_response_nonempty (rs : list (list message)) :
  has_text_response rs = true -> rs <> [].
Proof. destruct rs; [discriminate | discriminate]. Qed.

(** When every intent file of the listing passes the empty-file check of
    [ok_empty_files], [get_responses] cannot fail, and [generate_domain]
    writes the domain document. *)
Theorem checked_export_gives_domain (st : state) (dir : list dir_entry) :
  (forall e, In e dir -> is_usersays (fname e) = false ->
             passes_empty_check e = true) ->
  snd (get_responses st dir) <> None
  /\ domain_yml (generate_domain st dir) <> None.
Proof.
  intros Hok.
  assert (H : snd (get_responses st dir) <> None).
  { intros E. apply get_responses_loop_none in E.
    destruct E as (e & He & Hu & Hf). specialize (Hok e He Hu).
    unfold passes_empty_check in Hok. unfold first_response in Hf.
    destruct (fdata e) as [ex|[|r rs]]; discriminate. }
  split; [exact H|]. unfold generate_domain.
  destruct (get_responses st dir) as [st1 [rc|]];
    [|exfalso; apply H; reflexivity].
  destruct (find _ intents_anchor =? -1)%Z; discriminate.
Qed.

Lemma checked_export_gives_domain_witness :
  snd (get_responses plain_state grouped_export) <> None
  /\ domain_yml (generate_domain plain_state grouped_export) <> None.
Proof.
  apply (@checked_export_gives_domain plain_state grouped_export).
  intros e He Hu.
  repeat (destruct He as [<-|He]; [first [discriminate Hu | reflexivity]|]).
  destruct He.
Defined.

(** ** Rule synthesis *)

Lemma default_rules_eq (st : state) (l : list str) (acc : str) :
  fold_left
    (fun new_rules intent =>
       if contains (RULES_CONTENT st) intent then new_rules
       else new_rules ++ rule_text intent (lit "utter_" ++ intent))
    l acc
  = acc ++ concat (map default_rule
                     (filter (fun i => negb (contains (RULES_CONTENT st) i)) l)).
Proof.
  revert acc; induction l as [|i l IH]; intros acc; simpl.
  - symmetry. apply app_nil_r.
  - rewrite IH. destruct (contains (RULES_CONTENT st) i); simpl; [reflexivity|].
    rewrite <- app_assoc. f_equal. f_equal.
    unfold rule_text, default_rule, render_rule. simpl.
    rewrite <- !app_assoc. reflexivity.
Qed.

Lemma contains_empty (x : str) : x <> [] -> contains [] x = false.
Proof. destruct x; [congruence | reflexivity]. Qed.

(** The rules section is the anchor, the rules that normalisation
    produced, and then one default rule for each listed intent that does
    not occur in that text, in list order (a listed intent is repeated as
    often as it is listed); when normalisation produced no rule, every
    listed intent other than the empty one gets its default rule. *)
Theorem rules_section_shape (st : state) :
  new_rules st
  = rules_anchor ++ RULES_CONTENT st
    ++ concat (map default_rule
                 (filter (fun i => negb (contains (RULES_CONTENT st) i))
                         (INTENT_LIST st)))
  /\ (RULES_CONTENT st = [] -> Forall (fun i => i <> []) (INTENT_LIST st) ->
      new_rules st = rules_anchor ++ concat (map default_rule (INTENT_LIST st))).
Proof.
  assert (E : new_rules st
              = rules_anchor ++ RULES_CONTENT st
                ++ concat (map default_rule
                             (filter (fun i => negb (contains (RULES_CONTENT st) i))
                                     (INTENT_LIST st)))).
  { unfold new_rules, default_rules. rewrite default_rules_eq, <- app_assoc.
    reflexivity. }
  split; [exact E|]. intros Hr Hne. rewrite E, Hr. cbn [app].
  assert (F : forall l, Forall (fun i : str => i <> []) l ->
                        filter (fun i => negb (contains [] i)) l = l).
  { intros l Hl. induction Hl as [|i l Hi _ IH]; [reflexivity|].
    cbn [filter]. rewrite (contains_empty Hi), IH. reflexivity. }
  rewrite (F _ Hne). reflexivity.
Qed.

Lemma rules_section_shape_witness :
  new_rules greet_other_state
  = rules_anchor ++ default_rule (lit "greet") ++ default_rule DEFAULT_GROUP.
Proof.
  rewrite (proj2 (rules_section_shape greet_other_state) eq_refl).
  - reflexivity.
  - repeat constructor; discriminate.
Defined.

Lemma new_rules_anchor (st : state) :
  exists tail, new_rules st = rules_anchor ++ tail.
Proof.
  unfold new_rules, default_rules. rewrite default_rules_eq, <- app_assoc.
  eexists. reflexivity.
Qed.

Lemma version_header_before_rules (tail : str) :
  first_occurrence (version_header ++ rules_anchor ++ tail) rules_anchor
                   version_header.
Proof.
  apply (@first_occurrence_other_tail version_header rules_anchor [] tail).
  exact (@find_nat_occurs (version_header ++ rules_anchor ++ []) rules_anchor
           15 eq_refl).
Qed.

Lemma generate_rules_written (st : state) :
  exists pre tail,
    new_rules st = rules_anchor ++ tail
    /\ rules_yml (generate_rules st) = Some (pre ++ rules_anchor ++ tail)
    /\ no_cr pre = true
    /\ forall tail',
        first_occurrence (pre ++ rules_anchor ++ tail') rules_anchor pre.
Proof.
  destruct (new_rules_anchor st) as [tail Et].
  unfold generate_rules. cbn [rules_yml set_rules_yml].
  destruct (rules_yml st) as [doc|].
  - cbv zeta. unfold find.
    destruct (find_nat (universal_newlines doc) rules_anchor) as [i|] eqn:E.
    + replace (negb (Z.of_nat i =? -1)%Z) with true
        by (symmetry; apply negb_true_iff; apply Z.eqb_neq; lia).
      rewrite slice_to_nat.
      pose proof (find_nat_occurs _ _ E) as Hocc.
      destruct (Hocc) as [[post Hp] _].
      exists (firstn i (universal_newlines doc)), tail. rewrite Et.
      split; [reflexivity|]. split; [reflexivity|]. split.
      * apply no_cr_firstn, universal_newlines_clean.
      * intros tail'.
        apply (@first_occurrence_other_tail _ rules_anchor post tail').
        rewrite <- Hp. exact Hocc.
    + cbn [Z.eqb negb]. exists version_header, tail. rewrite Et.
      split; [reflexivity|]. split; [reflexivity|].
      split; [reflexivity|]. apply version_header_before_rules.
  - exists version_header, tail. rewrite Et.
    split; [reflexivity|]. split; [reflexivity|].
    split; [reflexivity|]. apply version_header_before_rules.
Qed.

(** Rule generation is stable: run again on the document it has just
    written, with the same rules text and intent list, it writes the same
    document, whatever the rules document was before. *)
Theorem generate_rules_idempotent (st : state) :
  generate_rules (generate_rules st) = generate_rules st.
Proof.
  destruct (generate_rules_written st) as (pre & tail & Et & Ew & Hcr & Hocc).
  assert (Hread : first_occurrence
                    (universal_newlines (pre ++ rules_anchor ++ tail))
                    rules_anchor pre).
  { rewrite app_assoc, universal_newlines_app, <- app_assoc
      by (rewrite no_cr_app, Hcr; reflexivity).
    apply Hocc. }
  unfold generate_rules at 1. rewrite Ew. cbv zeta.
  rewrite (find_first_ne Hread). cbn [negb]. rewrite (slice_to_first Hread).
  change (new_rules (generate_rules st)) with (new_rules st).
  unfold generate_rules in Ew |- *. cbn [rules_yml set_rules_yml] in Ew.
  unfold set_rules_yml. cbn [LANGUAGE_SETTING ENTITY_LIST INTENT_LIST
                             RULES_CONTENT nlu_yml domain_yml].
  f_equal. rewrite Ew, Et. reflexivity.
Qed.

(** ** Corpus generation with the default group *)

Lemma register_resolved (st : state) (name : str) :
  (exists g, In g (INTENT_LIST st) /\ startswith name g = true)
  \/ In DEFAULT_GROUP (INTENT_LIST st) ->
  register (INTENT_LIST st) (add_group_to_intent_name st name)
  = INTENT_LIST st.
Proof.
  intros H. destruct (has_match_dec (INTENT_LIST st) name) as [Hm|Hu].
  - destruct (add_group_matched_rewrites st name Hm)
      as [g [(Hin & Hs & _) Hr]].
    apply (register_prefixed _ _ g Hin).
    eapply rewrites_first_keeps_prefix; eassumption.
  - destruct H as [(g & Hg & Hs)|Hd]; [rewrite (Hu g Hg) in Hs; discriminate|].
    rewrite (add_group_unmatched st name Hu).
    pose proof Hd as Hd'. apply mem_iff in Hd'. rewrite Hd'.
    apply (register_prefixed _ _ DEFAULT_GROUP Hd). apply startswith_app.
Qed.

Lemma generate_nlu_loop_default (dir : list dir_entry) (st : state) (d : str) :
  In DEFAULT_GROUP (INTENT_LIST st) ->
  INTENT_LIST (fst (generate_nlu_loop st d dir)) = INTENT_LIST st.
Proof.
  revert st d; induction dir as [|e dir IH]; intros st d Hd; simpl.
  - reflexivity.
  - destruct (endswith (fname e) (usersays_suffix st)); [|apply IH; exact Hd].
    rewrite register_resolved by (right; exact Hd).
    destruct (fdata e); [|reflexivity].
    rewrite IH; [reflexivity | exact Hd].
Qed.

Lemma default_group_recognised (filenames : list str) :
  2 <= ungrouped filenames -> In DEFAULT_GROUP (extract_groups filenames).
Proof.
  intros H. destruct (extract_groups_shape filenames) as (gs & _ & _ & ->).
  destruct (Nat.eqb_spec (ungrouped filenames) 0) as [E|_]; [lia|].
  rewrite andb_false_r.
  destruct (Nat.leb_spec 2 (ungrouped filenames)); [|lia].
  apply in_or_app. right. left. reflexivity.
Qed.

(** When at least two training-phrase files are ungrouped, the default
    group is recognised and corpus generation registers no intent at all:
    after [generate_nlu] the intent list is still the list of groups. *)
Theorem default_group_closes_intent_list (agent_language : str)
  (st st0 : state) (dir : list dir_entry) :
  initialize_migration_setup agent_language st dir = Some st0 ->
  2 <= ungrouped (map fname dir) ->
  In DEFAULT_GROUP (extract_groups (map fname dir))
  /\ INTENT_LIST (generate_nlu st0 dir) = extract_groups (map fname dir).
Proof.
  intros Hi Hu. pose proof (default_group_recognised _ Hu) as Hd.
  split; [exact Hd|].
  assert (E0 : INTENT_LIST st0 = extract_groups (map fname dir)).
  { unfold initialize_migration_setup in Hi.
    destruct agent_language; [discriminate|]. inversion Hi. reflexivity. }
  rewrite <- E0 in Hd |- *.
  pose proof (generate_nlu_loop_default dir st0 nlu_anchor Hd) as E.
  unfold generate_nlu.
  destruct (generate_nlu_loop st0 nlu_anchor dir) as [st1 [new_nlu_data|]];
    cbn [fst] in E; [|exact E].
  destruct (nlu_yml st1); exact E.
Qed.

Lemma default_group_closes_intent_list_witness :
  let st0 := mkState (lit "en") [] [DEFAULT_GROUP] [] None None None in
  In DEFAULT_GROUP (extract_groups (map fname ungrouped_export))
  /\ INTENT_LIST (generate_nlu st0 ungrouped_export)
     = extract_groups (map fname ungrouped_export).
Proof.
  exact (@default_group_closes_intent_list (lit "en") plain_state _
           ungrouped_export eq_refl (le_n 2)).
Defined.

(** ** The corpus document never reaches the other documents *)

Lemma same_but_nlu_refl (st : state) : same_but_nlu st st.
Proof. repeat split. Qed.

Ltac same_nlu st st' H :=
  destruct st, st'; unfold same_but_nlu in H; cbn in H;
  destruct H as (? & ? & ? & ? & ? & ?); subst.

Lemma add_group_same_nlu (st st' : state) (name : str) :
  same_but_nlu st st' ->
  add_group_to_intent_name st' name = add_group_to_intent_name st name.
Proof.
  intros (_ & _ & Hi & _). unfold add_group_to_intent_name. rewrite Hi.
  reflexivity.
Qed.

Lemma process_buttons_same_nlu (st st' : state) (bs : list button)
  (c : cursor) :
  same_but_nlu st st' ->
  same_but_nlu (fst (process_buttons st bs c)) (fst (process_buttons st' bs c))
  /\ snd (process_buttons st' bs c) = snd (process_buttons st bs c).
Proof.
  intros H. same_nlu st st' H.
  unfold process_buttons, rename_intent, rename_response, replace_in_file.
  destruct (after_text c); [split; [repeat split | reflexivity]|].
  destruct (steps_iter c =? 0); cbn [nlu_yml set_INTENT_LIST].
  - destruct nlu_yml0, nlu_yml1; split; (repeat split || reflexivity).
  - split; [repeat split | reflexivity].
Qed.

Lemma process_message_same_nlu (st st' : state) (c : cursor) (m : message) :
  same_but_nlu st st' ->
  same_but_nlu (fst (process_message (st, c) m))
               (fst (process_message (st', c) m))
  /\ snd (process_message (st', c) m) = snd (process_message (st, c) m).
Proof.
  intros H. pose proof H as (Hl & _). unfold process_message. rewrite Hl.
  destruct (negb (str_eqb (lang m) (LANGUAGE_SETTING st)));
    [split; [exact H | reflexivity]|].
  destruct (str_eqb (mtype m) (lit "0") && negb (length (speech m) =? 0));
    [split; [exact H | reflexivity]|].
  destruct (str_eqb (mtype m) (lit "4")); [|split; [exact H | reflexivity]].
  destruct (buttons (payload m)) as [bs|].
  - destruct (process_buttons_same_nlu bs c H) as [Hs Hc].
    destruct (process_buttons st bs c) as [s1 c1],
             (process_buttons st' bs c) as [s2 c2].
    cbn [fst snd] in Hs, Hc. subst c2.
    destruct (images (payload m)); split; (exact Hs || reflexivity).
  - destruct (images (payload m)); split; (exact H || reflexivity).
Qed.

Lemma process_messages_same_nlu (msgs : list message) (st st' : state)
  (c : cursor) :
  same_but_nlu st st' ->
  same_but_nlu (fst (fold_left process_message msgs (st, c)))
               (fst (fold_left process_message msgs (st', c)))
  /\ snd (fold_left process_message msgs (st', c))
     = snd (fold_left process_message msgs (st, c)).
Proof.
  revert st st' c; induction msgs as [|m msgs IH]; intros st st' c H.
  - split; [exact H | reflexivity].
  - cbn [fold_left]. destruct (process_message_same_nlu c m H) as [Hs Hc].
    destruct (process_message (st, c) m) as [s1 c1],
             (process_message (st', c) m) as [s2 c2].
    cbn [fst snd] in Hs, Hc. subst c2. apply IH. exact Hs.
Qed.

Lemma process_response_same_nlu (st st' : state) (rc file : str)
  (response : list message) :
  same_but_nlu st st' ->
  same_but_nlu (fst (process_response st rc file response))
               (fst (process_response st' rc file response))
  /\ snd (process_response st' rc file response)
     = snd (process_response st rc file response).
Proof.
  intros H. unfold process_response. rewrite (add_group_same_nlu _ H).
  set (c0 := mkCursor _ _ _ _ _).
  destruct (process_messages_same_nlu response c0 H) as [Hs Hc].
  destruct (fold_left process_message response (st, c0)) as [s1 c1],
           (fold_left process_message response (st', c0)) as [s2 c2].
  cbn [fst snd] in *. subst c2. split; [exact Hs | reflexivity].
Qed.

Lemma get_responses_loop_same_nlu (dir : list dir_entry) (st st' : state)
  (rc : str) :
  same_but_nlu st st' ->
  same_but_nlu (fst (get_responses_loop st rc dir))
               (fst (get_responses_loop st' rc dir))
  /\ snd (get_responses_loop st' rc dir) = snd (get_responses_loop st rc dir).
Proof.
  revert st st' rc; induction dir as [|e dir IH]; intros st st' rc H; simpl.
  - split; [exact H | reflexivity].
  - destruct (is_usersays (fname e)); [apply IH; exact H|].
    destruct (fdata e) as [ex|[|r rs]]; try (split; [exact H | reflexivity]).
    destruct (process_response_same_nlu rc (fname e) r H) as [Hs Hc].
    destruct (process_response st rc (fname e) r) as [s1 c1],
             (process_response st' rc (fname e) r) as [s2 c2].
    cbn [fst snd] in Hs, Hc. subst c2. apply IH. exact Hs.
Qed.

Lemma generate_nlu_loop_same_nlu (dir : list dir_entry) (st st' : state)
  (d : str) :
  same_but_nlu st st' ->
  same_but_nlu (fst (generate_nlu_loop st d dir))
               (fst (generate_nlu_loop st' d dir)).
Proof.
  revert st st' d; induction dir as [|e dir IH]; intros st st' d H; simpl.
  - exact H.
  - assert (Es : usersays_suffix st' = usersays_suffix st).
    { unfold usersays_suffix. rewrite (proj1 H). reflexivity. }
    rewrite Es, (add_group_same_nlu _ H).
    destruct (endswith (fname e) (usersays_suffix st)); [|apply IH; exact H].
    assert (H1 : same_but_nlu
                   (set_INTENT_LIST st
                      (register (INTENT_LIST st)
                         (add_group_to_intent_name st
                            (remove_substring (fname e) (usersays_suffix st)))))
                   (set_INTENT_LIST st'
                      (register (INTENT_LIST st')
                         (add_group_to_intent_name st
                            (remove_substring (fname e) (usersays_suffix st)))))).
    { destruct H as (?&?&Hi&?&?&?). rewrite Hi. repeat split; assumption. }
    destruct (fdata e); [apply IH; exact H1 | exact H1].
Qed.

Lemma generate_nlu_same_nlu (st st' : state) (dir : list dir_entry) :
  same_but_nlu st st' ->
  same_but_nlu (generate_nlu st dir) (generate_nlu st' dir).
Proof.
  intros H. pose proof (generate_nlu_loop_same_nlu dir nlu_anchor H) as Hs.
  unfold generate_nlu.
  destruct (generate_nlu_loop st nlu_anchor dir) as [s1 [d1|]],
           (generate_nlu_loop st' nlu_anchor dir) as [s2 [d2|]];
    cbn [fst] in Hs;
    try destruct (nlu_yml s1); try destruct (nlu_yml s2); exact Hs.
Qed.

Lemma generate_domain_same_nlu (st st' : state) (dir : list dir_entry) :
  same_but_nlu st st' ->
  same_but_nlu (generate_domain st dir) (generate_domain st' dir).
Proof.
  intros H. unfold generate_domain, get_responses.
  destruct (get_responses_loop_same_nlu dir (lit "responses:" ++ [LF]) H)
    as [Hs Hc].
  destruct (get_responses_loop st _ dir) as [s1 r1],
           (get_responses_loop st' _ dir) as [s2 r2].
  cbn [fst snd] in Hs, Hc. subst r2. destruct r1 as [rc|]; [|exact Hs].
  same_nlu s1 s2 Hs. unfold intents_content, entities_content.
  cbn [domain_yml INTENT_LIST ENTITY_LIST].
  match goal with
  | |- context [if ?b then _ else _] => destruct b
  end; repeat split.
Qed.

Lemma generate_rules_same_nlu (st st' : state) :
  same_but_nlu st st' ->
  same_but_nlu (generate_rules st) (generate_rules st').
Proof. intros H. same_nlu st st' H. repeat split. Qed.

(** Whatever the corpus document holds, and whether it exists or not,
    the run ends the same way and leaves the same domain document, rules
    document, intent list and rules text: two runs from states that
    differ only in [nlu.yml] end in states that differ only in
    [nlu.yml]. *)
Theorem corpus_document_does_not_interfere (agent_language : str)
  (st st' : state) (dir : list dir_entry) :
  same_but_nlu st st' ->
  match main agent_language st dir, main agent_language st' dir with
  | Some a, Some b =>
      same_but_nlu a b /\ domain_yml b = domain_yml a
      /\ rules_yml b = rules_yml a
  | None, None => True
  | _, _ => False
  end.
Proof.
  intros H. unfold main, initialize_migration_setup.
  destruct agent_language as [|ch l]; [exact I|].
  cbv beta iota zeta.
  match goal with
  | |- same_but_nlu ?a ?b /\ _ => assert (Hf : same_but_nlu a b)
  end.
  { apply generate_rules_same_nlu, generate_domain_same_nlu,
      generate_nlu_same_nlu.
    same_nlu st st' H. repeat split. }
  split; [exact Hf|]. destruct Hf as (_ & _ & _ & _ & Hd & Hr).
  split; assumption.
Qed.

Lemma corpus_document_does_not_interfere_witness :
  match main (lit "en") (initial_state None None None) grouped_export,
        main (lit "en") (initial_state (Some nlu_anchor) None None)
             grouped_export with
  | Some a, Some b => domain_yml b = domain_yml a /\ rules_yml b = rules_yml a
  | _, _ => False
  end.
Proof.
  pose proof (@corpus_document_does_not_interfere (lit "en")
                (initial_state None None None)
                (initial_state (Some nlu_anchor) None None) grouped_export) as H.
  assert (H0 : same_but_nlu (initial_state None None None)
                            (initial_state (Some nlu_anchor) None None))
    by (repeat split).
  specialize (H H0). vm_compute in H. vm_compute.
  exact (proj2 H).
Defined.

(** ** The synonyms document *)







(** ** The intent list holds no identifier twice *)

Lemma register_NoDup (l : list str) (x : str) :
  NoDup l -> NoDup (register l x).
Proof.
  intros H. destruct (register_cases l x) as [->|[-> Hx]]; [exact H|].
  apply NoDup_app; [exact H | repeat constructor; intros [] |].
  intros y Hy [E|[]]. subst y. specialize (Hx x Hy).
  assert (startswith x x = true)
    by (apply startswith_iff; exists []; symmetry; apply app_nil_r).
  congruence.
Qed.

Lemma process_buttons_NoDup (st : state) (bs : list button) (c : cursor) :
  NoDup (INTENT_LIST st) -> NoDup (INTENT_LIST (fst (process_buttons st bs c))).
Proof.
  intros H. unfold process_buttons.
  destruct (after_text c); [exact H|].
  destruct (steps_iter c =? 0); unfold rename_intent, rename_response;
    [|exact H].
  set (short := last (split1 (intent_name c) 47%N) []).
  destruct (replace_in_file_globals
              (set_INTENT_LIST st (register (INTENT_LIST st) short))
              (intent_name c) short) as (_ & Hi & _).
  cbn [fst INTENT_LIST set_RULES_CONTENT]. rewrite Hi.
  apply register_NoDup. exact H.
Qed.

Lemma process_message_NoDup (acc : state * cursor) (m : message) :
  NoDup (INTENT_LIST (fst acc)) ->
  NoDup (INTENT_LIST (fst (process_message acc m))).
Proof.
  destruct acc as [st c]; unfold process_message; cbn [fst]. intros H.
  destruct (negb (str_eqb (lang m) (LANGUAGE_SETTING st))); [exact H|].
  destruct (str_eqb (mtype m) (lit "0") && negb (length (speech m) =? 0));
    [exact H|].
  destruct (str_eqb (mtype m) (lit "4")); [|exact H].
  destruct (buttons (payload m)) as [bs|].
  - pose proof (@process_buttons_NoDup st bs c H) as Hb.
    destruct (process_buttons st bs c) as [st1 c1]; cbn [fst] in *.
    destruct (images (payload m)); exact Hb.
  - destruct (images (payload m)); exact H.
Qed.

Lemma get_responses_loop_NoDup (dir : list dir_entry) (st : state) (rc : str) :
  NoDup (INTENT_LIST st) ->
  NoDup (INTENT_LIST (fst (get_responses_loop st rc dir))).
Proof.
  revert st rc; induction dir as [|e dir IH]; intros st rc H; simpl.
  - exact H.
  - destruct (is_usersays (fname e)); [apply IH; exact H|].
    destruct (fdata e) as [ex|[|r rs]]; try exact H.
    assert (Hr : NoDup (INTENT_LIST (fst (process_response st rc (fname e) r)))).
    { unfold process_response. set (c0 := mkCursor _ _ _ _ _).
      assert (Hf : NoDup (INTENT_LIST
                            (fst (fold_left process_message r (st, c0)))))
        by (apply (fold_left_preserves
                     (fun acc => NoDup (INTENT_LIST (fst acc))));
            [intros a x; apply process_message_NoDup | exact H]).
      destruct (fold_left process_message r (st, c0)); exact Hf. }
    destruct (process_response st rc (fname e) r) as [st1 rc1].
    apply IH. exact Hr.
Qed.

Lemma generate_nlu_loop_NoDup (dir : list dir_entry) (st : state) (d : str) :
  NoDup (INTENT_LIST st) ->
  NoDup (INTENT_LIST (fst (generate_nlu_loop st d dir))).
Proof.
  revert st d; induction dir as [|e dir IH]; intros st d H; simpl.
  - exact H.
  - destruct (endswith (fname e) (usersays_suffix st)); [|apply IH; exact H].
    destruct (fdata e).
    + apply IH. apply register_NoDup. exact H.
    + apply register_NoDup. exact H.
Qed.

Lemma extract_groups_NoDup (filenames : list str) :
  tally filenames DEFAULT_GROUP < 2 -> NoDup (extract_groups filenames).
Proof.
  intros Ht. destruct (extract_groups_shape filenames) as (gs & Hnd & Hgs & ->).
  destruct ((length gs =? 1) && (ungrouped filenames =? 0)); [constructor|].
  destruct (2 <=? ungrouped filenames); [|exact Hnd].
  apply NoDup_app; [exact Hnd | repeat constructor; intros [] |].
  intros y Hy [E|[]]. subst y. apply Hgs in Hy. lia.
Qed.

(** Unless two training-phrase files carry the default group as their
    prefix, no identifier is listed twice at the end of the run: neither
    the grouping, nor corpus generation, nor the renaming done during
    normalisation registers an identifier that is already listed. *)
Theorem intent_list_without_duplicates (agent_language : str)
  (st st' : state) (dir : list dir_entry) :
  tally (map fname dir) DEFAULT_GROUP < 2 ->
  main agent_language st dir = Some st' ->
  NoDup (INTENT_LIST st').
Proof.
  intros Ht Hm. unfold main, initialize_migration_setup in Hm.
  destruct agent_language as [|ch l]; [discriminate|].
  inversion Hm; subst st'; clear Hm.
  change (INTENT_LIST (generate_rules ?s)) with (INTENT_LIST s).
  set (st0 := set_INTENT_LIST _ (extract_groups (map fname dir))).
  assert (H0 : NoDup (INTENT_LIST st0)) by (apply extract_groups_NoDup; exact Ht).
  assert (H1 : NoDup (INTENT_LIST (generate_nlu st0 dir))).
  { pose proof (@generate_nlu_loop_NoDup dir st0 nlu_anchor H0) as H.
    unfold generate_nlu.
    destruct (generate_nlu_loop st0 nlu_anchor dir) as [s1 [d1|]];
      cbn [fst] in H; [|exact H].
    destruct (nlu_yml s1); exact H. }
  set (st1 := generate_nlu st0 dir) in *.
  pose proof (@get_responses_loop_NoDup dir st1 (lit "responses:" ++ [LF]) H1)
    as H2.
  unfold generate_domain, get_responses.
  destruct (get_responses_loop st1 (lit "responses:" ++ [LF]) dir)
    as [s2 [rc|]]; cbn [fst] in H2; [|exact H2].
  destruct (find _ intents_anchor =? -1)%Z; exact H2.
Qed.

Lemma intent_list_without_duplicates_witness :
  exists st',
    main (lit "en") (initial_state (Some nlu_anchor) None None) grouped_export
    = Some st'
    /\ NoDup (INTENT_LIST st').
Proof.
  eexists. split; [vm_compute; reflexivity|].
  apply (@intent_list_without_duplicates (lit "en")
           (initial_state (Some nlu_anchor) None None) _ grouped_export);
    [vm_compute; lia | vm_compute; reflexivity].
Defined.

(** ** Responses without buttons *)

Lemma process_message_without_buttons (st : state) (c : cursor) (m : message) :
  buttons (payload m) = None -> fst (process_message (st, c) m) = st.
Proof.
  intros Hb. unfold process_message. rewrite Hb.
  destruct (negb (str_eqb (lang m) (LANGUAGE_SETTING st))); [reflexivity|].
  destruct (str_eqb (mtype m) (lit "0") && negb (length (speech m) =? 0));
    [reflexivity|].
  destruct (str_eqb (mtype m) (lit "4")); [|reflexivity].
  destruct (images (payload m)); reflexivity.
Qed.

(** Only buttons change the state: a response none of whose messages
    carries buttons, whatever texts and images it holds and in whatever
    language, adds no rule, registers nothing and renames nothing. *)
Theorem response_without_buttons (st : state) (rc file : str)
  (msgs : list message) :
  Forall (fun m => buttons (payload m) = None) msgs ->
  fst (process_response st rc file msgs) = st.
Proof.
  intros H. unfold process_response. set (c0 := mkCursor _ _ _ _ _).
  assert (E : fst (fold_left process_message msgs (st, c0)) = st).
  { clearbody c0. revert c0. induction H as [|m msgs Hm _ IH]; intros c0.
    - reflexivity.
    - cbn [fold_left].
      pose proof (process_message_without_buttons st c0 m Hm) as E1.
      destruct (process_message (st, c0) m) as [s1 c1]. cbn [fst] in E1.
      subst s1. apply IH. }
  destruct (fold_left process_message msgs (st, c0)); exact E.
Qed.

Lemma response_without_buttons_witness :
  fst (process_response greet_state [] (lit "greet-hello.json")
         [text_message ["Hello"%string]; images_message ["http://i"%string]])
  = greet_state.
Proof.
  apply (@response_without_buttons greet_state [] (lit "greet-hello.json")).
  repeat constructor.
Defined.

(** ** Few training-phrase files *)

Lemma filter_length_le (A : Type) (f : A -> bool) (l : list A) :
  length (filter f l) <= length l.
Proof.
  induction l as [|x l IH]; simpl; [lia|]. destruct (f x); simpl; lia.
Qed.

(** With fewer than two training-phrase files in the listing (whatever
    else it holds) no group is recognised, the default group included. *)
Theorem few_training_files_no_group (filenames : list str) :
  length (training_files filenames) < 2 -> extract_groups filenames = [].
Proof.
  intros H. destruct (extract_groups_shape filenames) as (gs & _ & Hgs & ->).
  assert (Hu : ungrouped filenames < 2).
  { unfold ungrouped.
    pose proof (filter_length_le
                  (fun f => match prefix_of f with
                            | Some q => tally filenames q <? 2
                            | None => true
                            end) (training_files filenames)). lia. }
  assert (Eg : gs = []).
  { destruct gs as [|g gs']; [reflexivity|]. exfalso.
    assert (Ht : 2 <= tally filenames g) by (apply Hgs; left; reflexivity).
    unfold tally in Ht.
    pose proof (filter_length_le (has_prefix g) (training_files filenames)).
    lia. }
  subst gs. cbn [length Nat.eqb andb].
  destruct (Nat.leb_spec 2 (ungrouped filenames)); [lia | reflexivity].
Qed.

Lemma few_training_files_no_group_witness :
  extract_groups [usersays_name "greet-hello"; lit "greet-hello.json";
                  lit "greet-bye.json"] = [].
Proof.
  apply few_training_files_no_group. vm_compute. lia.
Defined.

(** ** Which documents exist after generation *)


(** ** Renaming in the corpus document *)

Lemma skipn_nil (A : Type) (k : nat) : skipn k (@nil A) = [].
Proof. destruct k; reflexivity. Qed.

Lemma replace_scan_same (old : str) (s : str) :
  old <> [] ->
  forall (count : option nat) (k : nat),
  replace_scan old old count k s = skipn k s.
Proof.
  intros Hold. induction s as [|c s IH]; intros count k.
  - simpl. symmetry. apply skipn_nil.
  - destruct k as [|k]; cbn [replace_scan skipn]; [|apply IH].
    destruct (count_left count && startswith (c :: s) old) eqn:E.
    + apply andb_true_iff in E. destruct E as [_ E].
      apply startswith_iff in E. destruct E as [r E].
      destruct old as [|a old']; [congruence|].
      inversion E; subst. rewrite IH. cbn [length].
      replace (S (length old') - 1) with (length old') by lia.
      rewrite skipn_app, skipn_all, Nat.sub_diag. reflexivity.
    + rewrite IH. reflexivity.
Qed.

Lemma replace_empty_same (s : str) (count : option nat) :
  replace_empty [] count s = s.
Proof.
  revert count; induction s as [|c s IH]; intros count; simpl;
    destruct (count_left count); simpl; rewrite ?IH; reflexivity.
Qed.

Lemma replace_same (s x : str) (count : option nat) :
  replace s x x count = s.
Proof.
  unfold replace. destruct x as [|a x].
  - apply replace_empty_same.
  - apply (@replace_scan_same (a :: x) s); discriminate.
Qed.

(** Replacing a text by itself changes nothing, so [rename_intent] on an
    identifier without [/] (its short name is the identifier itself)
    returns the identifier and writes the corpus document back as the
    text read from it: a carriage return followed by a line feed, and a
    carriage return alone, come back as a line feed and nothing else
    changes, so a document without carriage returns is left exactly as
    it was. *)
Theorem rename_without_group_keeps_corpus (st : state) (name : str) :
  ~ In 47%N name ->
  nlu_yml (fst (rename_intent st name))
  = option_map universal_newlines (nlu_yml st)
  /\ snd (rename_intent st name) = name
  /\ (forall doc, nlu_yml st = Some doc -> no_cr doc = true ->
      nlu_yml (fst (rename_intent st name)) = Some doc).
Proof.
  intros H.
  assert (E : nlu_yml (fst (rename_intent st name))
              = option_map universal_newlines (nlu_yml st)).
  { unfold rename_intent. cbn [fst snd].
    rewrite (last_split1_absent _ _ H).
    unfold replace_in_file. cbn [nlu_yml set_INTENT_LIST].
    destruct (nlu_yml st) as [doc|] eqn:E;
      cbn [nlu_yml set_nlu_yml set_INTENT_LIST option_map].
    - rewrite replace_same. reflexivity.
    - exact E. }
  split; [exact E|]. split.
  - unfold rename_intent. cbn [fst snd].
    rewrite (last_split1_absent _ _ H). reflexivity.
  - intros doc Hdoc Hcr. rewrite E, Hdoc. cbn [option_map].
    rewrite (universal_newlines_no_cr _ Hcr). reflexivity.
Qed.

Lemma rename_without_group_keeps_corpus_witness :
  nlu_yml (fst (rename_intent anchored_crlf_state (lit "faq")))
  = Some (hand_written ++ nlu_anchor ++ lit "- intent: old" ++ [LF])
  /\ snd (rename_intent anchored_crlf_state (lit "faq")) = lit "faq"
  /\ nlu_yml (fst (rename_intent anchored_state (lit "faq")))
     = nlu_yml anchored_state.
Proof.
  assert (H : ~ In 47%N (lit "faq")) by (vm_compute; intuition discriminate).
  split; [|split].
  - exact (proj1 (@rename_without_group_keeps_corpus anchored_crlf_state
                    (lit "faq") H)).
  - exact (proj1 (proj2 (@rename_without_group_keeps_corpus
                           anchored_crlf_state (lit "faq") H))).
  - exact (proj2 (proj2 (@rename_without_group_keeps_corpus anchored_state
                           (lit "faq") H))
             _ eq_refl eq_refl).
Defined.
